(** * Batch creation callbacks of gorm (callback_batch_create.go)

    A shallow embedding of the three callbacks registered for batch
    creation -- [beforeBatchCreateCallback],
    [updateTimeStampForBatchCreateCallback], [batchCreateCallback] -- and of
    the field extractor [FiledsWithIndexForBatch], followed by the
    properties of the generated statement, of the bound parameters and of
    the error handling.

    A Go panic is the [None] of the option monad; the request context
    ([*Scope]) is passed explicitly from statement to statement, and with it
    the number of readings taken of the clock, which shows a time of its own
    at every reading. *)

From stdpp Require Import base option list gmap strings.
From Stdlib Require Import ZArith Lia.

Local Open Scope Z_scope.
Set Warnings "-register-all".

(** ** Go values as seen through package reflect *)

Module Reflect.

(** What a [reflect.Value] holds.  [VInvalid] is the zero [reflect.Value]:
    what [reflect.ValueOf(nil)] and the indirection of a nil pointer give, and
    so the target of a request that was handed nil or a nil pointer.  [VNil]
    is the nil interface value.  A pointer carries the zero value of its
    element type, which is what [reflect.New(t.Elem())] allocates, and its
    target, [None] for a nil pointer.  Pointers own their target: two
    elements of a collection never share storage. *)
Inductive gval : Type :=
| VInvalid
| VNil
| VBool (b : bool)
| VInt (z : Z)
| VString (s : string)
| VTime (t : Z)
| VPtr (zero : gval) (target : option gval)
| VStruct (fields : list (string * gval))
| VSlice (elems : list gval).

Inductive Kind :=
  Invalid | Interface | Bool | Int | Str | Time | Ptr | Struct | Slice.

#[global] Instance Kind_eq_dec : EqDecision Kind.
Proof. solve_decision. Defined.

Definition KindOf (v : gval) : Kind :=
  match v with
  | VInvalid => Invalid
  | VNil => Interface
  | VBool _ => Bool
  | VInt _ => Int
  | VString _ => Str
  | VTime _ => Time
  | VPtr _ _ => Ptr
  | VStruct _ => Struct
  | VSlice _ => Slice
  end.

(** [Value.Interface()]: the value held; it panics on the zero
    [reflect.Value]. *)
Definition valueInterface (v : gval) : option gval :=
  match v with
  | VInvalid => None
  | _ => Some v
  end.

(** [reflect.Indirect]: the target of a pointer ([None] is the zero Value a
    nil pointer yields), any other value itself. *)
Definition Indirect (v : gval) : option gval :=
  match v with
  | VPtr _ target => target
  | _ => Some v
  end.

(** Writing through the handle [Indirect] returned. *)
Definition storeIndirect (v s : gval) : gval :=
  match v with
  | VPtr z _ => VPtr z (Some s)
  | _ => s
  end.

(** [fieldValue.Kind() == reflect.Ptr && fieldValue.IsNil()] followed by
    [fieldValue.Set(reflect.New(fieldValue.Type().Elem()))]. *)
Definition allocIfNil (v : gval) : gval :=
  match v with
  | VPtr z None => VPtr z (Some z)
  | _ => v
  end.

Definition structFields (v : gval) : option (list (string * gval)) :=
  match v with
  | VStruct fs => Some fs
  | _ => None
  end.

(** [FieldByName] and the store through the handle it returns, on the
    fields the struct declares itself: the name paths of the metadata spell
    out every embedded struct they go through. *)
Fixpoint lookupField (name : string) (fs : list (string * gval)) : option gval :=
  match fs with
  | [] => None
  | (n, v) :: rest => if decide (n = name) then Some v else lookupField name rest
  end.

Fixpoint updateField (name : string) (x : gval) (fs : list (string * gval))
  : list (string * gval) :=
  match fs with
  | [] => []
  | (n, v) :: rest =>
      if decide (n = name) then (n, x) :: rest else (n, v) :: updateField name x rest
  end.

(** Lines 180-186 of [FiledsWithIndexForBatch]: the walk along
    [structField.Names], allocating every nil pointer met on the way.  The
    result is the value walked from, as the walk leaves it, and the field
    reached.  [FieldByName] on a value that is no struct panics; on a name the
    struct lacks it yields the zero Value, on which the next use panics. *)
Fixpoint walk (names : list string) (v : gval) : option (gval * gval) :=
  match names with
  | [] => Some (v, v)
  | name :: rest =>
      let v1 := allocIfNil v in
      s ← Indirect v1;
      fs ← structFields s;
      fv ← lookupField name fs;
      '(fv', r) ← walk rest fv;
      Some (storeIndirect v1 (VStruct (updateField name fv' fs)), r)
  end.

(** Reading the field a handle obtained by [walk] refers to. *)
Fixpoint getPath (names : list string) (v : gval) : option gval :=
  match names with
  | [] => Some v
  | name :: rest =>
      s ← Indirect v;
      fs ← structFields s;
      fv ← lookupField name fs;
      getPath rest fv
  end.

(** Storing [x] into the field a handle obtained by [walk] refers to. *)
Fixpoint setPath (names : list string) (x : gval) (v : gval) : option gval :=
  match names with
  | [] => Some x
  | name :: rest =>
      s ← Indirect v;
      fs ← structFields s;
      fv ← lookupField name fs;
      fv' ← setPath rest x fv;
      Some (storeIndirect v (VStruct (updateField name fv' fs)))
  end.

End Reflect.
Export Reflect.

(** ** The data model of the mapping layer *)

(** [StructField]: one schema field of the model, as the metadata provider
    ([scope.GetModelStruct()]) declares it. *)
Record StructField := {
  Name : string;
  Names : list string;
  DBName : string;
  IsPrimaryKey : bool;
  IsNormal : bool;
  IsIgnored : bool;
  HasDefaultValue : bool;
  TagSettings : gmap string string
}.

(** The handle ([reflect.Value]) of an addressable field: the element of the
    collection it belongs to and the path of names leading to it. *)
Record Slot := { slotIndex : nat; slotPath : list string }.

(** [Field]: a [StructField] bound to one element.  [FieldValue] is [None]
    for the zero [reflect.Value] of a descriptor built without [Field:]. *)
Record Field := {
  FStructField : StructField;
  FieldValue : option Slot;
  IsBlank : bool
}.

(** Go embeds [*StructField] in [Field]: [field.Name] is the name of the
    schema field. *)
Coercion FStructField : Field >-> StructField.

Inductive error :=
| Errorf (format : string) (arg : gval)
| DriverError (msg : string).

(** [Scope]: the request context shared by the callbacks, with the two
    pieces of the world the callbacks touch.  [IndirectValue] is the target
    of the request, already dereferenced; it is [VInvalid] when the request
    was handed nil or a nil pointer.  [Executed] records the statements
    handed to [SQLDB().Exec], oldest first.  [Clock] counts the readings of
    the clock taken so far. *)
Record Scope := {
  IndirectValue : gval;
  ModelStructFields : list StructField;
  Settings : gmap string gval;
  Error : option error;
  SQL : string;
  SQLVars : list gval;
  RowsAffected : Z;
  Executed : list (string * list gval);
  Clock : nat
}.

Definition setIndirectValue (v : gval) (scope : Scope) : Scope :=
  {| IndirectValue := v; ModelStructFields := ModelStructFields scope;
     Settings := Settings scope; Error := Error scope; SQL := SQL scope;
     SQLVars := SQLVars scope; RowsAffected := RowsAffected scope;
     Executed := Executed scope; Clock := Clock scope |}.

Definition setError (e : option error) (scope : Scope) : Scope :=
  {| IndirectValue := IndirectValue scope; ModelStructFields := ModelStructFields scope;
     Settings := Settings scope; Error := e; SQL := SQL scope;
     SQLVars := SQLVars scope; RowsAffected := RowsAffected scope;
     Executed := Executed scope; Clock := Clock scope |}.

Definition setSQL (sql : string) (scope : Scope) : Scope :=
  {| IndirectValue := IndirectValue scope; ModelStructFields := ModelStructFields scope;
     Settings := Settings scope; Error := Error scope; SQL := sql;
     SQLVars := SQLVars scope; RowsAffected := RowsAffected scope;
     Executed := Executed scope; Clock := Clock scope |}.

Definition setSQLVars (vars : list gval) (scope : Scope) : Scope :=
  {| IndirectValue := IndirectValue scope; ModelStructFields := ModelStructFields scope;
     Settings := Settings scope; Error := Error scope; SQL := SQL scope;
     SQLVars := vars; RowsAffected := RowsAffected scope;
     Executed := Executed scope; Clock := Clock scope |}.

Definition setRowsAffected (n : Z) (scope : Scope) : Scope :=
  {| IndirectValue := IndirectValue scope; ModelStructFields := ModelStructFields scope;
     Settings := Settings scope; Error := Error scope; SQL := SQL scope;
     SQLVars := SQLVars scope; RowsAffected := n;
     Executed := Executed scope; Clock := Clock scope |}.

Definition setExecuted (log : list (string * list gval)) (scope : Scope) : Scope :=
  {| IndirectValue := IndirectValue scope; ModelStructFields := ModelStructFields scope;
     Settings := Settings scope; Error := Error scope; SQL := SQL scope;
     SQLVars := SQLVars scope; RowsAffected := RowsAffected scope;
     Executed := log; Clock := Clock scope |}.

Definition setClock (n : nat) (scope : Scope) : Scope :=
  {| IndirectValue := IndirectValue scope; ModelStructFields := ModelStructFields scope;
     Settings := Settings scope; Error := Error scope; SQL := SQL scope;
     SQLVars := SQLVars scope; RowsAffected := RowsAffected scope;
     Executed := Executed scope; Clock := n |}.

(** ** Collaborators declared outside this file *)

(** The dialect: identifier quoting and the text of the n-th bind variable. *)
Class Dialect := {
  Quote : string → string;
  BindVar : nat → string
}.

(** The other services the callbacks consume: the zero-value test
    [isBlank], the clock ([Now n] is the time it shows when it is read for
    the [n]-th time), the quoted table name, the database ([Exec] answers
    with the affected-row count or an error), the hook dispatcher
    [callMethod] (given the index of the element it is passed), and the text
    [fmt.Sprint] gives a value that is no string. *)
Class Collaborators := {
  isBlank : gval → bool;
  Now : nat → gval;
  QuotedTableName : string;
  Exec : string → list gval → Z + error;
  callMethod : string → nat → Scope → option Scope;
  SprintOther : gval → string
}.

(** ** Methods of [Scope] and [Field] used by the callbacks *)

(** Modelled from the spec: [Scope.HasError] is declared in another file of
    the package; it tells whether the context already carries an error. *)
Definition HasError (scope : Scope) : bool :=
  match Error scope with Some _ => true | None => false end.

(** Modelled from the spec: [Scope.Err] is declared in another file of the
    package; a nil error is not recorded, and the first error recorded on
    the context stays ("first error wins"). *)
Definition Err (err : option error) (scope : Scope) : Scope :=
  match err, Error scope with
  | Some e, None => setError (Some e) scope
  | _, _ => scope
  end.

(** The context after one more reading of the clock. *)
Definition tick (scope : Scope) : Scope := setClock (S (Clock scope)) scope.

(** [NowFunc()]: the time the clock shows; every call is a reading of its
    own, so two calls need not agree. *)
Definition NowFunc `{Collaborators} (scope : Scope) : gval * Scope :=
  (Now (Clock scope), tick scope).

(** Modelled from the spec: [Scope.AddToVars] is declared in another file;
    the value joins the ordered sequence of bound parameters and the text
    returned is the dialect's bind variable for its position. *)
Definition AddToVars `{Dialect} (v : gval) (scope : Scope) : string * Scope :=
  let vars := SQLVars scope ++ [v] in
  (BindVar (length vars), setSQLVars vars scope).

(** Modelled from the spec: [Scope.Raw] is declared in another file; the
    text becomes the context's accumulated SQL text. *)
Definition Raw (sql : string) (scope : Scope) : Scope := setSQL sql scope.

(** Modelled from the spec: [Scope.Get] is declared in another file; it
    looks a setting up among those the context carries. *)
Definition Get (name : string) (scope : Scope) : option gval :=
  Settings scope !! name.

(** [fmt.Sprint] of the value of a setting: a string prints as itself. *)
Definition Sprint `{Collaborators} (v : gval) : string :=
  match v with
  | VString s => s
  | _ => SprintOther v
  end.

(** Modelled from the spec: [addExtraSpaceIfExist] is declared in another
    file; the optional trailing clause is the option text itself, set off
    from the VALUES clause by the one space the helper's name announces, and
    an empty text adds nothing. *)
Definition addExtraSpaceIfExist (str : string) : string :=
  if decide (str = "") then "" else " " +:+ str.

(** [strings.Join]. *)
Fixpoint Join (elems : list string) (sep : string) : string :=
  match elems with
  | [] => ""
  | [e] => e
  | e :: rest => e +:+ sep +:+ Join rest sep
  end.

(** Reading and writing the field a handle refers to, in the target
    collection. *)
Definition slotLoad (sl : Slot) (target : gval) : option gval :=
  match target with
  | VSlice l => e ← l !! slotIndex sl; s ← Indirect e; getPath (slotPath sl) s
  | _ => None
  end.

Definition slotStore (sl : Slot) (x : gval) (target : gval) : gval :=
  match target with
  | VSlice l =>
      match l !! slotIndex sl with
      | Some e =>
          match Indirect e ≫= setPath (slotPath sl) x with
          | Some s' => VSlice (<[slotIndex sl := storeIndirect e s']> l)
          | None => target
          end
      | None => target
      end
  | _ => target
  end.

(** [field.Field.Interface()]: the current content of the field; it panics
    on the zero [reflect.Value]. *)
Definition FieldInterface (field : Field) (scope : Scope) : option gval :=
  sl ← FieldValue field; slotLoad sl (IndirectValue scope).

(** Modelled from the spec: [Field.Set] is declared in another file; the
    value is written onto the element's field.  On a descriptor without a
    field it only returns an error, which both callers drop. *)
Definition FieldSet (field : Field) (x : gval) (scope : Scope) : Scope :=
  match FieldValue field with
  | Some sl => setIndirectValue (slotStore sl x (IndirectValue scope)) scope
  | None => scope
  end.

(** ** The field extractor *)

Section Callbacks.
Context `{Dialect} `{Collaborators}.

(** Lines 178-191: one descriptor per schema field, in the model's order.
    [s] is the dereferenced element; it is returned as the walks leave it. *)
Fixpoint FiledsWithIndexForBatch_loop (isStruct : bool) (index : nat)
    (structFields : list StructField) (s : gval) : option (list Field * gval) :=
  match structFields with
  | [] => Some ([], s)
  | structField :: rest =>
      if isStruct then
        '(s1, fieldValue) ← walk (Names structField) s;
        let field := {| FStructField := structField;
                        FieldValue := Some {| slotIndex := index;
                                              slotPath := Names structField |};
                        IsBlank := isBlank fieldValue |} in
        '(fields, s2) ← FiledsWithIndexForBatch_loop isStruct index rest s1;
        Some (field :: fields, s2)
      else
        let field := {| FStructField := structField; FieldValue := None;
                        IsBlank := true |} in
        '(fields, s2) ← FiledsWithIndexForBatch_loop isStruct index rest s;
        Some (field :: fields, s2)
  end.

(** [FiledsWithIndexForBatch]: nil for a target that is no slice and for an
    index at or beyond its length; [Index] panics on a negative index. *)
Definition FiledsWithIndexForBatch (scope : Scope) (index : Z)
  : option (list Field * Scope) :=
  match IndirectValue scope with
  | VSlice l =>
      if Z.of_nat (length l) <=? index then Some ([], scope)
      else if index <? 0 then None
      else
        e ← l !! Z.to_nat index;
        match Indirect e with
        | Some s =>
            '(fields, s') ← FiledsWithIndexForBatch_loop
                              (bool_decide (KindOf s = Struct)) (Z.to_nat index)
                              (ModelStructFields scope) s;
            Some (fields,
                  setIndirectValue
                    (VSlice (<[Z.to_nat index := storeIndirect e s']> l)) scope)
        | None =>
            '(fields, _) ← FiledsWithIndexForBatch_loop false (Z.to_nat index)
                             (ModelStructFields scope) VNil;
            Some (fields, scope)
        end
  | _ => Some ([], scope)
  end.

(** ** The callbacks *)

Definition beforeBatchCreate_nonSlice : string :=
  "beforeBatchCreateCallback cannot be called for non-slice value, %+v given".
Definition updateTimeStamp_nonSlice : string :=
  "updateTimeStampForBatchCreateCallback cannot be called for non-slice value, %+v given".
Definition batchCreate_nonSlice : string :=
  "batchCreateCallback cannot be called for non-slice value, %+v given".
Definition batchCreate_emptySlice : string :=
  "batchCreateCallback cannot be called for empty slice, %+v given".
Definition batchCreate_emptyColumns : string :=
  "batchCreateCallback cannot be called for empty columns, %+v given".

(** [beforeBatchCreateCallback]: the hook of the first element only. *)
Definition beforeBatchCreateCallback (scope : Scope) : option Scope :=
  if negb (HasError scope) then
    let indirectScopeValue := IndirectValue scope in
    match indirectScopeValue with
    | VSlice l =>
        if 0 <? Z.of_nat (length l)
        then callMethod "BeforeBatchCreate" 0%nat scope
        else Some scope
    | _ =>
        given ← valueInterface indirectScopeValue;
        Some (Err (Some (Errorf beforeBatchCreate_nonSlice given)) scope)
    end
  else Some scope.

(** Lines 51-60: the fields of one element. *)
Fixpoint updateTimeStamp_fields (now : gval) (fields : list Field) (scope : Scope)
  : Scope :=
  match fields with
  | [] => scope
  | field :: rest =>
      if negb (IsBlank field) then updateTimeStamp_fields now rest scope
      else if bool_decide (Name field = "CreatedAt")
              || bool_decide (Name field = "UpdatedAt")
      then updateTimeStamp_fields now rest (FieldSet field now scope)
      else updateTimeStamp_fields now rest scope
  end.

(** Lines 49-61: the elements in order; the length of the slice is that of
    line 41, which no step changes. *)
Fixpoint updateTimeStamp_elements (now : gval) (indices : list nat) (scope : Scope)
  : option Scope :=
  match indices with
  | [] => Some scope
  | elementIndex :: rest =>
      '(fields, scope1) ← FiledsWithIndexForBatch scope (Z.of_nat elementIndex);
      updateTimeStamp_elements now rest (updateTimeStamp_fields now fields scope1)
  end.

(** [updateTimeStampForBatchCreateCallback]: the clock is read once, on
    line 39, before the target is looked at. *)
Definition updateTimeStampForBatchCreateCallback (scope : Scope) : option Scope :=
  if negb (HasError scope) then
    let '(now, scope) := NowFunc scope in
    let indirectScopeValue := IndirectValue scope in
    match indirectScopeValue with
    | VSlice l => updateTimeStamp_elements now (seq 0 (length l)) scope
    | _ =>
        given ← valueInterface indirectScopeValue;
        Some (Err (Some (Errorf updateTimeStamp_nonSlice given)) scope)
    end
  else Some scope.

(** Lines 89-97: the column names, from the descriptors of element 0. *)
Fixpoint batchCreate_columns (fields : list Field) (columns : list string)
    (existColumnNames : gmap string bool) : list string * gmap string bool :=
  match fields with
  | [] => (columns, existColumnNames)
  | field :: rest =>
      if negb (IsNormal field) || IsIgnored field
      then batchCreate_columns rest columns existColumnNames
      else batchCreate_columns rest (columns ++ [Quote (DBName field)])
                               (<[Name field := true]> existColumnNames)
  end.

(** Lines 111-127: the value bound for one field, with the write-back of a
    default. *)
Definition batchCreate_value (field : Field) (scope : Scope) : option (gval * Scope) :=
  if negb (IsBlank field) then
    v ← FieldInterface field scope; Some (v, scope)
  else if negb (IsPrimaryKey field) then
    if HasDefaultValue field then
      let v := VString (default "" (TagSettings field !! "DEFAULT")) in
      Some (v, FieldSet field v scope)
    else
      v ← FieldInterface field scope; Some (v, scope)
  else Some (VNil, scope).

(** Lines 109-131: the placeholders of one row. *)
Fixpoint batchCreate_row (existColumnNames : gmap string bool) (fields : list Field)
    (valuePlaceholders : list string) (scope : Scope) : option (list string * Scope) :=
  match fields with
  | [] => Some (valuePlaceholders, scope)
  | field :: rest =>
      if default false (existColumnNames !! Name field) then
        '(v, scope1) ← batchCreate_value field scope;
        let '(placeholder, scope2) := AddToVars v scope1 in
        batchCreate_row existColumnNames rest (valuePlaceholders ++ [placeholder]) scope2
      else batchCreate_row existColumnNames rest valuePlaceholders scope
  end.

(** Lines 105-134: the rows, one per element. *)
Fixpoint batchCreate_rows (existColumnNames : gmap string bool) (indices : list nat)
    (placeholders : list (list string)) (scope : Scope)
  : option (list (list string) * Scope) :=
  match indices with
  | [] => Some (placeholders, scope)
  | elementIndex :: rest =>
      '(fields, scope1) ← FiledsWithIndexForBatch scope (Z.of_nat elementIndex);
      '(valuePlaceholders, scope2) ← batchCreate_row existColumnNames fields [] scope1;
      batchCreate_rows existColumnNames rest
        (<[elementIndex := valuePlaceholders]> placeholders) scope2
  end.

(** Lines 137-155: the text of the statement. *)
Definition batchCreate_sql (columns : list string) (placeholders : list (list string))
    (extraOption : string) : string :=
  let valuePlaceholders := map (λ placeholder, "(" +:+ Join placeholder "," +:+ ")")
                               placeholders in
  "INSERT INTO " +:+ QuotedTableName +:+ " (" +:+ Join columns "," +:+ ") VALUES "
    +:+ Join valuePlaceholders "," +:+ addExtraSpaceIfExist extraOption.

(** Lines 158-162: the execution. *)
Definition batchCreate_exec (scope : Scope) : Scope :=
  let scope1 := setExecuted (Executed scope ++ [(SQL scope, SQLVars scope)]) scope in
  match Exec (SQL scope) (SQLVars scope) with
  | inl rowsAffected => setRowsAffected rowsAffected scope1
  | inr err => Err (Some err) scope1
  end.

(** [batchCreateCallback].  Line 68 reads the clock for [scope.trace], which
    is deferred, only logs and is left out.  On the slice the target is,
    [Interface()] gives that slice. *)
Definition batchCreateCallback (scope : Scope) : option Scope :=
  if negb (HasError scope) then
    let '(_, scope) := NowFunc scope in
    let indirectScopeValue := IndirectValue scope in
    match indirectScopeValue with
    | VSlice l =>
        if Z.of_nat (length l) <=? 0 then
          Some (Err (Some (Errorf batchCreate_emptySlice indirectScopeValue)) scope)
        else
          let placeholders := replicate (length l) [] in
          '(fields, scope1) ← FiledsWithIndexForBatch scope 0;
          let '(columns, existColumnNames) := batchCreate_columns fields [] ∅ in
          if Z.of_nat (length columns) <=? 0 then
            Some (Err (Some (Errorf batchCreate_emptyColumns (IndirectValue scope1)))
                      scope1)
          else
            '(placeholders, scope2) ← batchCreate_rows existColumnNames
                                        (seq 0 (length l)) placeholders scope1;
            let extraOption := match Get "gorm:insert_option" scope2 with
                               | Some str => Sprint str
                               | None => ""
                               end in
            Some (batchCreate_exec
                    (Raw (batchCreate_sql columns placeholders extraOption) scope2))
    | _ =>
        given ← valueInterface indirectScopeValue;
        Some (Err (Some (Errorf batchCreate_nonSlice given)) scope)
    end
  else Some scope.

(** The callbacks of this file in the order [init] registers them; the
    transaction callbacks around them are declared elsewhere. *)
Definition runBatchCreate (scope : Scope) : option Scope :=
  scope1 ← beforeBatchCreateCallback scope;
  scope2 ← updateTimeStampForBatchCreateCallback scope1;
  batchCreateCallback scope2.

End Callbacks.

(** ** Well-formed inputs *)

(** An element the extractor treats as a record: a struct, or a pointer to
    one. *)
Definition isRecord (e : gval) : bool :=
  match Indirect e with
  | Some (VStruct _) => true
  | _ => false
  end.

Definition isSome {A} (o : option A) : bool :=
  match o with Some _ => true | None => false end.

(** An element of the model's record type: every name path of the model
    leads to a field of it. *)
Definition conforms (model : list StructField) (e : gval) : bool :=
  isRecord e && forallb (λ sf, isSome (walk (Names sf) e)) model.

Fixpoint hasPrefix (p q : list string) : bool :=
  match p, q with
  | [], _ => true
  | _ :: _, [] => false
  | a :: p', b :: q' => bool_decide (a = b) && hasPrefix p' q'
  end.

Definition apart (p q : list string) : bool :=
  negb (hasPrefix p q) && negb (hasPrefix q p).

Fixpoint pathsApart (paths : list (list string)) : bool :=
  match paths with
  | [] => true
  | p :: rest => forallb (apart p) rest && pathsApart rest
  end.

(** Metadata in which every descriptor has a field of its own: name paths
    are not empty and none extends another. *)
Definition wfModel (model : list StructField) : bool :=
  forallb (λ sf, negb (bool_decide (Names sf = []))) model
  && pathsApart (Names <$> model).

(** ** What the callbacks compute, element by element *)

(** The element as the extractor leaves it: every nil pointer on a name path
    of the model allocated. *)
Fixpoint settle (model : list StructField) (e : gval) : gval :=
  match model with
  | [] => e
  | sf :: rest =>
      match walk (Names sf) e with
      | Some (e', _) => settle rest e'
      | None => e
      end
  end.

(** The fields [batchCreateCallback] turns into columns, and the rows'
    test on logical names. *)
Definition persistable (sf : StructField) : bool :=
  IsNormal sf && negb (IsIgnored sf).

Definition columnNames (model : list StructField) : gmap string bool :=
  foldl (λ m sf, <[Name sf := true]> m) ∅ (List.filter persistable model).

Definition selected (existColumnNames : gmap string bool) (sf : StructField) : bool :=
  default false (existColumnNames !! Name sf).

(** No field left out of the columns bears the logical name of a column. *)
Definition namesConsistent (model : list StructField) : bool :=
  forallb (λ sf, bool_decide (selected (columnNames model) sf = persistable sf)) model.

Definition defaultOf (sf : StructField) : gval :=
  VString (default "" (TagSettings sf !! "DEFAULT")).

Definition current (e : gval) (sf : StructField) : gval :=
  default VNil (getPath (Names sf) e).

(** A store into the field of [sf], and the stores [w] asks for, in the
    model's order. *)
Definition store (sf : StructField) (x : option gval) (e : gval) : gval :=
  match x with
  | Some x => default e (setPath (Names sf) x e)
  | None => e
  end.

Definition storeAll (w : StructField → option gval) (sfs : list StructField)
    (e : gval) : gval :=
  foldl (λ e sf, store sf (w sf) e) e sfs.

(** The descriptor of an element that is no record: no handle, blank. *)
Definition detached (sf : StructField) : Field :=
  {| FStructField := sf; FieldValue := None; IsBlank := true |}.

(** The context with its collection and its bound parameters replaced. *)
Definition withRows (l : list gval) (vars : list gval) (scope : Scope) : Scope :=
  setSQLVars vars (setIndirectValue (VSlice l) scope).

(** The placeholders of [rows] rows of [width] values each, [bound]
    parameters being bound already. *)
Fixpoint rowPlaceholders `{Dialect} (width rows bound : nat) : list (list string) :=
  match rows with
  | O => []
  | S rows' =>
      (BindVar <$> seq (S bound) width) :: rowPlaceholders width rows' (bound + width)
  end.

(** The fields a row binds a value for. *)
Definition rowFields (model : list StructField) : list StructField :=
  List.filter (selected (columnNames model)) model.

(** The number of values a row binds before it comes to its [j]-th
    descriptor: the place of that descriptor's value in the row. *)
Definition valueIndex (model : list StructField) (fields : list Field) (j : nat)
  : nat :=
  length (List.filter (λ field : Field, selected (columnNames model) field)
                      (take j fields)).

(** The column list of the statement. *)
Definition columnList `{Dialect} (model : list StructField) : list string :=
  (λ sf, Quote (DBName sf)) <$> List.filter persistable model.

Section Specification.
Context `{Collaborators}.

(** The text of the insert option the context carries, empty without one. *)
Definition insertOption (scope : Scope) : string :=
  match Get "gorm:insert_option" scope with
  | Some str => Sprint str
  | None => ""
  end.

Definition describe (index : nat) (e : gval) (sf : StructField) : Field :=
  {| FStructField := sf;
     FieldValue := Some {| slotIndex := index; slotPath := Names sf |};
     IsBlank := isBlank (current e sf) |}.

Definition blankIn (e : gval) (sf : StructField) : bool := isBlank (current e sf).

Definition writesDefault (e : gval) (sf : StructField) : bool :=
  blankIn e sf && negb (IsPrimaryKey sf) && HasDefaultValue sf.

(** The value of lines 111-127 as a function of the element the row starts
    from. *)
Definition boundValue (e : gval) (sf : StructField) : gval :=
  if negb (blankIn e sf) then current e sf
  else if negb (IsPrimaryKey sf) then
    if HasDefaultValue sf then defaultOf sf else current e sf
  else VNil.

(** The element after its row: the defaults written back, [e0] being the
    element the row starts from. *)
Definition writes (existColumnNames : gmap string bool) (e0 : gval)
    (sf : StructField) : option gval :=
  if selected existColumnNames sf && writesDefault e0 sf
  then Some (defaultOf sf) else None.

Definition writeBack (existColumnNames : gmap string bool) (e0 : gval)
    (sfs : list StructField) (e : gval) : gval :=
  storeAll (writes existColumnNames e0) sfs e.

Definition finish (model : list StructField) (e : gval) : gval :=
  writeBack (columnNames model) (settle model e) model (settle model e).

Definition rowValues (model : list StructField) (e : gval) : list gval :=
  boundValue (settle model e) <$> rowFields model.

(** The element after the timestamp stage; an element that is no record is
    left as it is. *)
Definition stamps (now : gval) (e0 : gval) (sf : StructField) : option gval :=
  if blankIn e0 sf
     && (bool_decide (Name sf = "CreatedAt") || bool_decide (Name sf = "UpdatedAt"))
  then Some now else None.

Definition stampElement (now : gval) (model : list StructField) (e : gval) : gval :=
  if isRecord e
  then storeAll (stamps now (settle model e)) model (settle model e)
  else e.

(** The context [batchCreateCallback] hands to the database, the clock
    having been read once. *)
Definition batchCreate_statement `{Dialect} (scope : Scope) (l : list gval) : Scope :=
  let model := ModelStructFields scope in
  Raw (batchCreate_sql (columnList model)
         (rowPlaceholders (length (rowFields model)) (length l)
                          (length (SQLVars scope)))
         (insertOption scope))
      (withRows (finish model <$> l)
                (SQLVars scope ++ concat (rowValues model <$> l)) (tick scope)).

End Specification.

(** A field the rows bind with the content of the element: a column that is
    neither the primary key nor has a default. *)
Definition plainColumn (sf : StructField) : Prop :=
  persistable sf = true ∧ IsPrimaryKey sf = false ∧ HasDefaultValue sf = false.

(** A context to which nothing was sent and for which nothing was
    assembled since [scope]. *)
Definition nothingSent (scope scope' : Scope) : Prop :=
  SQL scope' = SQL scope ∧ SQLVars scope' = SQLVars scope
  ∧ Executed scope' = Executed scope ∧ RowsAffected scope' = RowsAffected scope.

(** The first element of a collection is one the extractor accepts: no
    record at all, or a record of the model's type. *)
Definition firstExtractable (model : list StructField) (l : list gval) : bool :=
  match l with
  | [] => true
  | e0 :: _ => negb (isRecord e0) || (wfModel model && conforms model e0)
  end.

(** The statement up to and including its VALUES clause. *)
Definition valuesClause `{Collaborators} (columns : list string)
    (placeholders : list (list string)) : string :=
  "INSERT INTO " +:+ QuotedTableName +:+ " (" +:+ Join columns ","
    +:+ ") VALUES "
    +:+ Join (map (λ placeholder, "(" +:+ Join placeholder "," +:+ ")") placeholders)
             ",".

(** The context after a callback has refused a target that is no slice. *)
Definition inputShapeError (callback : string) (scope : Scope) : Scope :=
  setError
    (Some (Errorf (callback +:+ " cannot be called for non-slice value, %+v given")
                  (IndirectValue scope)))
    scope.

(** ** A sample dialect, sample collaborators and sample requests *)

Module Sample.

#[export] Instance dialect : Dialect :=
  {| Quote := λ s, "`" +:+ s +:+ "`"; BindVar := λ _, "?" |}.

Definition isZero (v : gval) : bool :=
  match v with
  | VInvalid => true
  | VNil => true
  | VBool b => negb b
  | VInt z => z =? 0
  | VString s => bool_decide (s = "")
  | VTime t => t =? 0
  | VPtr _ None => true
  | VPtr _ (Some _) => false
  | VStruct _ => false
  | VSlice [] => true
  | VSlice _ => false
  end.

#[export] Instance collaborators : Collaborators :=
  {| isBlank := isZero;
     Now := λ n, VTime (1700000000 + Z.of_nat n);
     QuotedTableName := "`users`";
     Exec := λ _ _, inl 2;
     callMethod := λ _ _ scope, Some scope;
     SprintOther := λ _, "" |}.

Definition schemaField (name : string) (path : list string)
    (pk normal ignored : bool) (dflt : option string) : StructField :=
  {| Name := name; Names := path; DBName := name; IsPrimaryKey := pk;
     IsNormal := normal; IsIgnored := ignored;
     HasDefaultValue := isSome dflt;
     TagSettings := match dflt with
                    | Some d => {["DEFAULT" := d]}
                    | None => ∅
                    end |}.

(** A user with a key, a name that defaults to "anon", an age, a city in
    an optional address, a creation time and a field kept out of the
    database. *)
Definition userModel : list StructField :=
  [ schemaField "ID" ["ID"] true true false None;
    schemaField "Name" ["Name"] false true false (Some "anon");
    schemaField "Age" ["Age"] false true false None;
    schemaField "City" ["Addr"; "City"] false true false None;
    schemaField "CreatedAt" ["CreatedAt"] false true false None;
    schemaField "Tmp" ["Tmp"] false false true None ].

Definition noAddress : gval := VStruct [("City", VString "")].

Definition alice : gval :=
  VStruct [("ID", VInt 0); ("Name", VString ""); ("Age", VInt 3);
           ("Addr", VPtr noAddress None); ("CreatedAt", VTime 0);
           ("Tmp", VInt 9)].

Definition bob : gval :=
  VPtr VNil
    (Some (VStruct [("ID", VInt 7); ("Name", VString "bob"); ("Age", VInt 0);
                    ("Addr", VPtr noAddress (Some (VStruct [("City", VString "Oslo")])));
                    ("CreatedAt", VTime 5); ("Tmp", VInt 9)])).

Definition request (target : gval) (model : list StructField)
    (settings : gmap string gval) : Scope :=
  {| IndirectValue := target; ModelStructFields := model; Settings := settings;
     Error := None; SQL := ""; SQLVars := []; RowsAffected := 0; Executed := [];
     Clock := 0 |}.

Definition users : Scope := request (VSlice [alice; bob]) userModel ∅.

Definition usersOnConflict : Scope :=
  request (VSlice [alice; bob]) userModel
          {["gorm:insert_option" := VString "ON CONFLICT DO NOTHING"]}.

(** A slice of users by value: [alice], never saved, and [carol], who has
    a creation time. *)
Definition carol : gval :=
  VStruct [("ID", VInt 8); ("Name", VString "carol"); ("Age", VInt 41);
           ("Addr", VPtr noAddress None); ("CreatedAt", VTime 5);
           ("Tmp", VInt 0)].

Definition team : Scope := request (VSlice [alice; carol]) userModel ∅.

Definition notASlice : Scope := request alice userModel ∅.

(** A request that was handed a nil pointer to a slice of users, as in
    [var users *[]User]: its target is the zero [reflect.Value]. *)
Definition nilTarget : Scope := request VInvalid userModel ∅.

(** The descriptors of the key and of the name of [alice], first element
    of [users]: both blank. *)
Definition idOfAlice : Field :=
  {| FStructField := schemaField "ID" ["ID"] true true false None;
     FieldValue := Some {| slotIndex := 0; slotPath := ["ID"] |};
     IsBlank := true |}.

Definition nameOfAlice : Field :=
  {| FStructField := schemaField "Name" ["Name"] false true false (Some "anon");
     FieldValue := Some {| slotIndex := 0; slotPath := ["Name"] |};
     IsBlank := true |}.

Definition ageOfAlice : Field :=
  {| FStructField := schemaField "Age" ["Age"] false true false None;
     FieldValue := Some {| slotIndex := 0; slotPath := ["Age"] |};
     IsBlank := false |}.

Definition createdAtOfAlice : Field :=
  {| FStructField := schemaField "CreatedAt" ["CreatedAt"] false true false None;
     FieldValue := Some {| slotIndex := 0; slotPath := ["CreatedAt"] |};
     IsBlank := true |}.

(** A slice of pointers whose second element is nil. *)
Definition nobody : gval := VPtr alice None.

Definition usersAndNobody : Scope := request (VSlice [alice; nobody]) userModel ∅.

(** The descriptors the extractor yields for [alice]. *)
Definition fieldsOfAlice : list Field :=
  Eval vm_compute in default [] (fst <$> FiledsWithIndexForBatch users 0).

Definition noUsers : Scope := request (VSlice []) userModel ∅.

Definition failed : Scope := setError (Some (DriverError "connection lost")) users.

(** A model without a single column. *)
Definition bareModel : list StructField :=
  [ schemaField "Tmp" ["Tmp"] false false true None ].

Definition bare : Scope := request (VSlice [alice]) bareModel ∅.

(** A record that embeds another: the embedded [Note] is kept out of the
    database, the record's own [Note] is a column. *)
Definition shadowModel : list StructField :=
  [ schemaField "Note" ["Base"; "Note"] false false true None;
    schemaField "ID" ["ID"] true true false None;
    schemaField "Note" ["Note"] false true false None ].

Definition shadowed (id : Z) (note : string) : gval :=
  VStruct [("Base", VStruct [("Note", VString "draft")]); ("ID", VInt id);
           ("Note", VString note)].

Definition shadow : Scope :=
  request (VSlice [shadowed 1 "hello"; shadowed 2 "world"]) shadowModel ∅.

End Sample.

(** ** Properties of the reflection layer *)

Module ReflectFacts.

Lemma lookupField_updateField_eq name x fs :
  is_Some (lookupField name fs) →
  lookupField name (updateField name x fs) = Some x.
Proof.
  induction fs as [|[n v] fs IH]; simpl; intros [w Hw]; [done|].
  destruct (decide (n = name)) as [->|Hne]; simpl.
  - by rewrite decide_True.
  - rewrite decide_False by done. apply IH. eauto.
Qed.

Lemma lookupField_updateField_ne name name' x fs :
  name ≠ name' →
  lookupField name' (updateField name x fs) = lookupField name' fs.
Proof.
  intros Hne. induction fs as [|[n v] fs IH]; simpl; [done|].
  destruct (decide (n = name)) as [->|Hn]; simpl.
  - by rewrite !decide_False.
  - destruct (decide (n = name')); [done|apply IH].
Qed.

Lemma updateField_id name v fs :
  lookupField name fs = Some v → updateField name v fs = fs.
Proof.
  induction fs as [|[n w] fs IH]; simpl; [done|].
  destruct (decide (n = name)) as [->|Hn]; intros Hl.
  - congruence.
  - by rewrite IH.
Qed.

Lemma Indirect_storeIndirect v fs :
  Indirect (storeIndirect v (VStruct fs)) = Some (VStruct fs).
Proof. by destruct v. Qed.

Lemma storeIndirect_id v s : Indirect v = Some s → storeIndirect v s = v.
Proof. destruct v; simpl; congruence. Qed.

Lemma allocIfNil_id v s : Indirect v = Some s → allocIfNil v = v.
Proof. destruct v as [| | | | | |z [t|]| |]; simpl; congruence. Qed.

(** A field reached by [walk] is read back by [getPath]. *)
Lemma walk_getPath names : ∀ v v' r,
  walk names v = Some (v', r) → getPath names v' = Some r.
Proof.
  induction names as [|name rest IH]; simpl; intros v v' r Hw.
  - congruence.
  - destruct (Indirect (allocIfNil v)) as [s|] eqn:Hs; simpl in Hw; [|done].
    destruct (structFields s) as [fs|] eqn:Hfs; simpl in Hw; [|done].
    destruct (lookupField name fs) as [fv|] eqn:Hfv; simpl in Hw; [|done].
    destruct (walk rest fv) as [[fv' r']|] eqn:Hr; simpl in Hw; [|done].
    inversion Hw; subst. rewrite Indirect_storeIndirect. simpl.
    rewrite lookupField_updateField_eq by eauto. simpl. eauto.
Qed.

(** Where [getPath] finds a field, [walk] allocates nothing. *)
Lemma walk_noop names : ∀ v r,
  getPath names v = Some r → walk names v = Some (v, r).
Proof.
  induction names as [|name rest IH]; simpl; intros v r Hg.
  - congruence.
  - destruct (Indirect v) as [s|] eqn:Hs; simpl in Hg; [|done].
    rewrite (allocIfNil_id _ _ Hs), Hs. simpl.
    destruct (structFields s) as [fs|] eqn:Hfs; simpl in *; [|done].
    destruct (lookupField name fs) as [fv|] eqn:Hfv; simpl in *; [|done].
    rewrite (IH _ _ Hg). simpl. rewrite (updateField_id _ _ _ Hfv).
    destruct s; try done. simpl in Hfs. inversion Hfs; subst.
    by rewrite (storeIndirect_id _ _ Hs).
Qed.

Lemma setPath_getPath_eq names x : ∀ v v',
  setPath names x v = Some v' → getPath names v' = Some x.
Proof.
  induction names as [|name rest IH]; simpl; intros v v' Hset.
  - congruence.
  - destruct (Indirect v) as [s|] eqn:Hs; simpl in Hset; [|done].
    destruct (structFields s) as [fs|] eqn:Hfs; simpl in Hset; [|done].
    destruct (lookupField name fs) as [fv|] eqn:Hfv; simpl in Hset; [|done].
    destruct (setPath rest x fv) as [fv'|] eqn:Hr; simpl in Hset; [|done].
    inversion Hset; subst. rewrite Indirect_storeIndirect. simpl.
    rewrite lookupField_updateField_eq by eauto. simpl. eauto.
Qed.

Lemma setPath_is_Some names x : ∀ v,
  is_Some (getPath names v) → is_Some (setPath names x v).
Proof.
  induction names as [|name rest IH]; simpl; intros v [r Hg]; [eauto|].
  destruct (Indirect v) as [s|] eqn:Hs; simpl in *; [|done].
  destruct (structFields s) as [fs|] eqn:Hfs; simpl in *; [|done].
  destruct (lookupField name fs) as [fv|] eqn:Hfv; simpl in *; [|done].
  destruct (IH fv) as [fv' ->]; eauto.
Qed.

(** A store leaves every field on a path apart from its own untouched. *)
Lemma setPath_getPath_ne p x : ∀ q v v',
  apart p q = true → setPath p x v = Some v' → getPath q v' = getPath q v.
Proof.
  unfold apart.
  induction p as [|name rest IH]; intros q v v' Hap Hset; [done|].
  destruct q as [|name' rest']; [by rewrite andb_false_r in Hap|].
  simpl in *.
  destruct (Indirect v) as [s|] eqn:Hs; simpl in *; [|done].
  destruct (structFields s) as [fs|] eqn:Hfs; simpl in *; [|done].
  destruct (lookupField name fs) as [fv|] eqn:Hfv; simpl in *; [|done].
  destruct (setPath rest x fv) as [fv'|] eqn:Hr; simpl in *; [|done].
  inversion Hset; subst. rewrite Indirect_storeIndirect. simpl.
  destruct (decide (name = name')) as [->|Hne].
  - rewrite lookupField_updateField_eq by eauto. rewrite Hfv. simpl.
    rewrite !bool_decide_eq_true_2 in Hap by done. simpl in Hap.
    eapply IH; eauto.
  - by rewrite lookupField_updateField_ne.
Qed.

(** A walk leaves every field readable before it as it was, unless the
    field lies on the way of the walk. *)
Lemma walk_getPath_other q : ∀ p v v' r r',
  getPath q v = Some r → walk p v = Some (v', r') →
  (hasPrefix q p = false ∨ q = p) → getPath q v' = Some r.
Proof.
  induction q as [|name rest IH]; intros p v v' r r' Hg Hw Hpre.
  - destruct Hpre as [?|<-]; [done|]. simpl in *. congruence.
  - destruct p as [|name' rest']; [simpl in Hw; congruence|].
    simpl in *.
    destruct (Indirect v) as [s|] eqn:Hs; simpl in *; [|done].
    rewrite (allocIfNil_id _ _ Hs), Hs in Hw. simpl in Hw.
    destruct (structFields s) as [fs|] eqn:Hfs; simpl in *; [|done].
    destruct (lookupField name' fs) as [fv|] eqn:Hfv; simpl in *; [|done].
    destruct (walk rest' fv) as [[fv' r'']|] eqn:Hr; simpl in *; [|done].
    inversion Hw; subst. rewrite Indirect_storeIndirect. simpl.
    destruct (decide (name' = name)) as [->|Hne].
    + rewrite lookupField_updateField_eq by eauto. simpl.
      rewrite Hfv in Hg. simpl in Hg.
      eapply IH; eauto.
      destruct Hpre as [Hpre|Heq].
      * rewrite bool_decide_eq_true_2 in Hpre by done. auto.
      * right. congruence.
    + by rewrite lookupField_updateField_ne.
Qed.

(** A walk that succeeds still succeeds after any other walk. *)
Lemma walk_after_walk p : ∀ q v v' r,
  is_Some (walk p v) → walk q v = Some (v', r) → is_Some (walk p v').
Proof.
  induction p as [|name rest IH]; intros q v v' r Hp Hq; [simpl; eauto|].
  destruct q as [|name' rest']; [simpl in Hq; congruence|].
  simpl in *.
  destruct (Indirect (allocIfNil v)) as [s|] eqn:Hs; simpl in *; [|by destruct Hp].
  destruct (structFields s) as [fs|] eqn:Hfs; simpl in *; [|by destruct Hp].
  destruct (lookupField name' fs) as [fw|] eqn:Hfw; simpl in *; [|done].
  destruct (walk rest' fw) as [[fw' r'']|] eqn:Hr; simpl in *; [|done].
  inversion Hq; subst.
  rewrite (allocIfNil_id _ (VStruct (updateField name' fw' fs)))
    by apply Indirect_storeIndirect.
  rewrite Indirect_storeIndirect. simpl.
  destruct (lookupField name fs) as [fv|] eqn:Hfv; simpl in *; [|by destruct Hp].
  destruct (decide (name' = name)) as [->|Hne].
  - rewrite lookupField_updateField_eq by eauto. simpl.
    assert (fw = fv) as -> by congruence.
    destruct (walk rest fv) as [[a b]|] eqn:Hwr; simpl in Hp; [|by destruct Hp].
    destruct (IH rest' fv fw' r) as [[a' b'] ->]; eauto.
  - rewrite lookupField_updateField_ne by done. rewrite Hfv. simpl.
    destruct (walk rest fv) as [[a b]|]; simpl in *; eauto.
Qed.

End ReflectFacts.

(** ** Properties of the extractor *)

Section ExtractorFacts.
Context `{Dialect} `{Collaborators}.
Import ReflectFacts.

Lemma isRecord_inv e :
  isRecord e = true → ∃ fs, Indirect e = Some (VStruct fs).
Proof.
  unfold isRecord. destruct (Indirect e) as [[]|]; try done. eauto.
Qed.

Lemma isRecord_storeIndirect e fs : isRecord (storeIndirect e (VStruct fs)) = true.
Proof. unfold isRecord. by rewrite Indirect_storeIndirect. Qed.

Lemma storeIndirect_storeIndirect e fs s :
  storeIndirect (storeIndirect e (VStruct fs)) s = storeIndirect e s.
Proof. by destruct e. Qed.

(** On a record and a path that is not empty, the handle of the element and
    the handle of the struct behind it agree. *)
Lemma getPath_element e fs name rest :
  Indirect e = Some (VStruct fs) →
  getPath (name :: rest) (VStruct fs) = getPath (name :: rest) e.
Proof. intros He. simpl. by rewrite He. Qed.

Lemma setPath_element e fs name rest x :
  Indirect e = Some (VStruct fs) →
  storeIndirect e <$> setPath (name :: rest) x (VStruct fs)
  = setPath (name :: rest) x e.
Proof.
  intros He. simpl. rewrite He. simpl.
  destruct (lookupField name fs) as [fv|]; simpl; [|done].
  by destruct (setPath rest x fv).
Qed.

Lemma walk_element e fs name rest :
  Indirect e = Some (VStruct fs) →
  walk (name :: rest) e
  = prod_map (storeIndirect e) id <$> walk (name :: rest) (VStruct fs).
Proof.
  intros He. simpl. rewrite (allocIfNil_id _ _ He), He. simpl.
  destruct (lookupField name fs) as [fv|]; simpl; [|done].
  by destruct (walk rest fv) as [[]|].
Qed.

Lemma walk_record names e e' r :
  names ≠ [] → walk names e = Some (e', r) → isRecord e' = true.
Proof.
  destruct names as [|name rest]; [done|]. intros _. simpl.
  destruct (Indirect (allocIfNil e)) as [s|]; simpl; [|done].
  destruct (structFields s) as [fs|]; simpl; [|done].
  destruct (lookupField name fs) as [fv|]; simpl; [|done].
  destruct (walk rest fv) as [[]|]; simpl; [|done].
  intros [= <- <-]. apply isRecord_storeIndirect.
Qed.

Lemma setPath_record names x e e' :
  names ≠ [] → setPath names x e = Some e' → isRecord e' = true.
Proof.
  destruct names as [|name rest]; [done|]. intros _. simpl.
  destruct (Indirect e) as [s|]; simpl; [|done].
  destruct (structFields s) as [fs|]; simpl; [|done].
  destruct (lookupField name fs) as [fv|]; simpl; [|done].
  destruct (setPath rest x fv) as [|]; simpl; [|done].
  intros [= <-]. apply isRecord_storeIndirect.
Qed.

Lemma apart_sym p q : apart p q = apart q p.
Proof. unfold apart. apply andb_comm. Qed.

Lemma apart_hasPrefix p q : apart p q = true → hasPrefix p q = false.
Proof. unfold apart. intros [? _]%andb_prop. by apply negb_true_iff. Qed.

(** [settle] keeps what lies off the paths it walks. *)
Lemma settle_getPath model : ∀ q e r,
  Forall (λ sf, hasPrefix q (Names sf) = false ∨ q = Names sf) model →
  getPath q e = Some r → getPath q (settle model e) = Some r.
Proof.
  induction model as [|sf rest IH]; simpl; intros q e r Hall Hg; [done|].
  inversion Hall as [|? ? Hsf Hrest]; subst.
  destruct (walk (Names sf) e) as [[e' r']|] eqn:Hw; [|done].
  apply IH; [done|]. eapply walk_getPath_other; eauto.
Qed.

(** On an element with nothing left to allocate [settle] is the identity. *)
Lemma settle_settled model : ∀ e,
  Forall (λ sf, is_Some (getPath (Names sf) e)) model → settle model e = e.
Proof.
  induction model as [|sf rest IH]; simpl; intros e Hall; [done|].
  inversion Hall as [|? ? [r Hr] Hrest]; subst.
  rewrite (walk_noop _ _ _ Hr). by apply IH.
Qed.

Lemma settle_record model : ∀ e,
  isRecord e = true → Forall (λ sf, Names sf ≠ []) model →
  isRecord (settle model e) = true.
Proof.
  induction model as [|sf rest IH]; simpl; intros e He Hne; [done|].
  inversion Hne; subst.
  destruct (walk (Names sf) e) as [[e' r']|] eqn:Hw; [|done].
  apply IH; [|done]. eapply walk_record; eauto.
Qed.

Lemma pathsApart_cons p paths :
  pathsApart (p :: paths) = true →
  Forall (λ q, apart p q = true) paths ∧ pathsApart paths = true.
Proof.
  simpl. intros [Hp Hrest]%andb_prop. split; [|done].
  apply Forall_forall. intros q Hq.
  rewrite forallb_forall in Hp. apply Hp. by apply list_elem_of_In.
Qed.

(** After [settle] every name path of a conforming element is readable. *)
Lemma settle_found model : ∀ e,
  pathsApart (Names <$> model) = true →
  Forall (λ sf, is_Some (walk (Names sf) e)) model →
  Forall (λ sf, is_Some (getPath (Names sf) (settle model e))) model.
Proof.
  induction model as [|sf rest IH]; simpl; intros e Hap Hall; [done|].
  change (pathsApart (Names sf :: (Names <$> rest)) = true) in Hap.
  apply pathsApart_cons in Hap as [Hsf Hap].
  inversion Hall as [|? ? [[e' r] Hw] Hrest]; subst. rewrite Hw.
  constructor.
  - exists r. apply settle_getPath; [|by eapply walk_getPath].
    apply Forall_forall. intros sf' Hin. left.
    apply apart_hasPrefix. rewrite Forall_forall in Hsf. apply Hsf.
    by apply list_elem_of_fmap_2.
  - apply IH; [done|].
    eapply Forall_impl; [exact Hrest|]. intros sf' Hs. simpl in Hs.
    eapply walk_after_walk; eauto.
Qed.

Lemma wfModel_inv model :
  wfModel model = true →
  Forall (λ sf, Names sf ≠ []) model ∧ pathsApart (Names <$> model) = true.
Proof.
  unfold wfModel. intros [Hne Hap]%andb_prop. split; [|done].
  apply Forall_forall. intros sf Hin. rewrite forallb_forall in Hne.
  specialize (Hne sf (proj1 (list_elem_of_In _ _) Hin)).
  apply negb_true_iff, bool_decide_eq_false in Hne. done.
Qed.

Lemma conforms_inv model e :
  conforms model e = true →
  isRecord e = true ∧ Forall (λ sf, is_Some (walk (Names sf) e)) model.
Proof.
  unfold conforms. intros [Hr Hw]%andb_prop. split; [done|].
  apply Forall_forall. intros sf Hin. rewrite forallb_forall in Hw.
  specialize (Hw sf (proj1 (list_elem_of_In _ _) Hin)).
  destruct (walk (Names sf) e); [eauto|done].
Qed.

Lemma conforms_intro model e :
  isRecord e = true → Forall (λ sf, is_Some (getPath (Names sf) e)) model →
  conforms model e = true.
Proof.
  intros Hr Hall. unfold conforms. rewrite Hr. simpl.
  apply forallb_forall. intros sf Hin%list_elem_of_In.
  rewrite Forall_forall in Hall. destruct (Hall _ Hin) as [r Hg].
  by rewrite (walk_noop _ _ _ Hg).
Qed.

Lemma settle_conforms model e :
  wfModel model = true → conforms model e = true →
  conforms model (settle model e) = true.
Proof.
  intros [Hne Hap]%wfModel_inv [Hr Hw]%conforms_inv.
  apply conforms_intro; [by apply settle_record|by apply settle_found].
Qed.

Lemma settle_idemp model e :
  wfModel model = true → conforms model e = true →
  settle model (settle model e) = settle model e.
Proof.
  intros [Hne Hap]%wfModel_inv [Hr Hw]%conforms_inv.
  apply settle_settled. by apply settle_found.
Qed.

Lemma setIndirectValue_id scope : setIndirectValue (IndirectValue scope) scope = scope.
Proof. by destruct scope. Qed.

Lemma FiledsWithIndexForBatch_loop_detached index model : ∀ s,
  FiledsWithIndexForBatch_loop false index model s = Some (detached <$> model, s).
Proof.
  induction model as [|sf rest IH]; simpl; intros s; [done|].
  by rewrite IH.
Qed.

Lemma FiledsWithIndexForBatch_loop_record index model : ∀ e fs,
  Indirect e = Some (VStruct fs) →
  Forall (λ sf, Names sf ≠ []) model →
  pathsApart (Names <$> model) = true →
  Forall (λ sf, is_Some (walk (Names sf) e)) model →
  ∃ fs', FiledsWithIndexForBatch_loop true index model (VStruct fs)
         = Some (describe index (settle model e) <$> model, VStruct fs')
         ∧ storeIndirect e (VStruct fs') = settle model e.
Proof.
  induction model as [|sf rest IH]; intros e fs He Hne Hap Hall.
  - exists fs. split; [done|]. by apply storeIndirect_id.
  - change (pathsApart (Names sf :: (Names <$> rest)) = true) in Hap.
    apply pathsApart_cons in Hap as [Hsf Hap].
    inversion Hne as [|? ? Hn Hne']; subst.
    inversion Hall as [|? ? [[e1 v] Hw] Hrest]; subst.
    destruct (Names sf) as [|name path] eqn:Hnames; [done|].
    pose proof Hw as Hw'. rewrite (walk_element _ _ _ _ He) in Hw'.
    destruct (walk (name :: path) (VStruct fs)) as [[s1 v1]|] eqn:Hws; [|done].
    simpl in Hw'. injection Hw' as <- ->.
    assert (∃ fs1, s1 = VStruct fs1) as [fs1 ->].
    { simpl in Hws. destruct (lookupField name fs); simpl in Hws; [|done].
      destruct (walk path g) as [[]|]; simpl in Hws; [|done].
      injection Hws as <- _. eauto. }
    destruct (IH (storeIndirect e (VStruct fs1)) fs1) as (fs' & Hloop & Hst); auto.
    { apply Indirect_storeIndirect. }
    { eapply Forall_impl; [exact Hrest|]. intros sf' Hs. simpl in Hs.
      eapply walk_after_walk; eauto. }
    exists fs'. cbn [FiledsWithIndexForBatch_loop settle fmap list_fmap].
    rewrite Hnames, Hws, Hw. simpl. rewrite Hloop. simpl.
    rewrite storeIndirect_storeIndirect in Hst. split; [|done].
    do 2 f_equal. unfold describe. rewrite Hnames. do 2 f_equal.
    unfold current. rewrite Hnames.
    erewrite settle_getPath; [done| |by eapply walk_getPath].
    apply Forall_forall. intros sf' Hin. left.
    apply apart_hasPrefix. rewrite Forall_forall in Hsf. apply Hsf.
    by apply list_elem_of_fmap_2.
Qed.

(** The extractor on an element of the model's record type. *)
Lemma FiledsWithIndexForBatch_record scope l (index : nat) e :
  IndirectValue scope = VSlice l → l !! index = Some e →
  wfModel (ModelStructFields scope) = true →
  conforms (ModelStructFields scope) e = true →
  FiledsWithIndexForBatch scope (Z.of_nat index)
  = Some (describe index (settle (ModelStructFields scope) e)
            <$> ModelStructFields scope,
          setIndirectValue
            (VSlice (<[index := settle (ModelStructFields scope) e]> l)) scope).
Proof.
  intros Hv Hl [Hne Hap]%wfModel_inv [Hr Hw]%conforms_inv.
  apply isRecord_inv in Hr as [fs He].
  unfold FiledsWithIndexForBatch. rewrite Hv.
  pose proof (lookup_lt_Some _ _ _ Hl) as Hlt.
  rewrite (proj2 (Z.leb_gt _ _)) by lia.
  rewrite (proj2 (Z.ltb_ge _ _)) by lia.
  rewrite Nat2Z.id, Hl. simpl. rewrite He. simpl.
  destruct (FiledsWithIndexForBatch_loop_record index _ e fs He Hne Hap Hw)
    as (fs' & -> & Hst).
  simpl. by rewrite Hst.
Qed.

(** The extractor beyond the end of the collection. *)
Lemma FiledsWithIndexForBatch_beyond scope l (index : nat) :
  IndirectValue scope = VSlice l → l !! index = None →
  FiledsWithIndexForBatch scope (Z.of_nat index) = Some ([], scope).
Proof.
  intros Hv Hl%lookup_ge_None. unfold FiledsWithIndexForBatch. rewrite Hv.
  by rewrite (proj2 (Z.leb_le _ _)) by lia.
Qed.

(** The extractor on an element that is no record. *)
Lemma FiledsWithIndexForBatch_detached scope l (index : nat) e :
  IndirectValue scope = VSlice l → l !! index = Some e →
  isRecord e = false →
  FiledsWithIndexForBatch scope (Z.of_nat index)
  = Some (detached <$> ModelStructFields scope, scope).
Proof.
  intros Hv Hl Hr. unfold FiledsWithIndexForBatch. rewrite Hv.
  pose proof (lookup_lt_Some _ _ _ Hl) as Hlt.
  rewrite (proj2 (Z.leb_gt _ _)) by lia.
  rewrite (proj2 (Z.ltb_ge _ _)) by lia.
  rewrite Nat2Z.id, Hl. simpl. unfold isRecord in Hr.
  destruct (Indirect e) as [s|] eqn:He.
  - rewrite bool_decide_eq_false_2 by (by destruct s).
    rewrite FiledsWithIndexForBatch_loop_detached. simpl.
    rewrite (storeIndirect_id _ _ He), list_insert_id by done.
    by rewrite <- Hv, setIndirectValue_id.
  - by rewrite FiledsWithIndexForBatch_loop_detached.
Qed.

End ExtractorFacts.

(** ** Properties of the rows *)

Section RowFacts.
Context `{Dialect} `{Collaborators}.
Import ReflectFacts.

Lemma slotLoad_element l index e names :
  l !! index = Some e → isRecord e = true → names ≠ [] →
  slotLoad {| slotIndex := index; slotPath := names |} (VSlice l) = getPath names e.
Proof.
  intros Hl [fs He]%isRecord_inv Hn. destruct names as [|name rest]; [done|].
  simpl. rewrite Hl. simpl. by rewrite He.
Qed.

Lemma slotStore_element l index e e' names x :
  l !! index = Some e → isRecord e = true → names ≠ [] →
  setPath names x e = Some e' →
  slotStore {| slotIndex := index; slotPath := names |} x (VSlice l)
  = VSlice (<[index := e']> l).
Proof.
  intros Hl [fs He]%isRecord_inv Hn Hset. destruct names as [|name rest]; [done|].
  rewrite <- (setPath_element _ _ _ _ _ He) in Hset.
  unfold slotStore. cbn [slotIndex slotPath]. rewrite Hl, He.
  cbn [mbind option_bind].
  destruct (setPath (name :: rest) x (VStruct fs)) as [s'|]; [|done].
  simpl in Hset. by injection Hset as <-.
Qed.

(** Lines 111-127 on the descriptor of a record's field. *)
Lemma batchCreate_value_record index e0 sf l vars scope e :
  l !! index = Some e → isRecord e = true → Names sf ≠ [] →
  is_Some (getPath (Names sf) e) →
  getPath (Names sf) e = getPath (Names sf) e0 →
  batchCreate_value (describe index e0 sf) (withRows l vars scope)
  = Some (boundValue e0 sf,
          withRows (<[index := store sf (if writesDefault e0 sf
                                         then Some (defaultOf sf) else None) e]> l)
                   vars scope).
Proof.
  intros Hl Hr Hn [c Hc] Heq.
  assert (FieldInterface (describe index e0 sf) (withRows l vars scope)
          = Some (current e0 sf)) as Hread.
  { unfold FieldInterface, current.
    cbn [describe FieldValue mbind option_bind withRows IndirectValue
         setSQLVars setIndirectValue].
    rewrite (slotLoad_element _ _ _ _ Hl Hr Hn). by rewrite <- Heq, Hc. }
  unfold batchCreate_value, boundValue, writesDefault, store.
  change (IsBlank (describe index e0 sf)) with (blankIn e0 sf).
  change (IsPrimaryKey (describe index e0 sf)) with (IsPrimaryKey sf).
  change (HasDefaultValue (describe index e0 sf)) with (HasDefaultValue sf).
  destruct (blankIn e0 sf); simpl.
  - destruct (IsPrimaryKey sf); simpl.
    + by rewrite list_insert_id.
    + destruct (HasDefaultValue sf); simpl.
      * destruct (setPath_is_Some (Names sf) (defaultOf sf) e) as [e' He'];
          [eauto|].
        unfold FieldSet.
        cbn [describe FieldValue withRows IndirectValue setSQLVars
             setIndirectValue].
        change (VString (default "" (TagSettings sf !! "DEFAULT")))
          with (defaultOf sf).
        rewrite (slotStore_element _ _ _ _ _ _ Hl Hr Hn He'), He'.
        reflexivity.
      * rewrite Hread. simpl. by rewrite list_insert_id.
  - rewrite Hread. simpl. by rewrite list_insert_id.
Qed.

(** Lines 109-131 on the descriptors of a record. *)
Lemma batchCreate_row_record exist index e0 scope : ∀ sfs phs l vars e,
  l !! index = Some e → isRecord e = true →
  Forall (λ sf, Names sf ≠ []) sfs →
  pathsApart (Names <$> sfs) = true →
  Forall (λ sf, is_Some (getPath (Names sf) e)
                ∧ getPath (Names sf) e = getPath (Names sf) e0) sfs →
  batchCreate_row exist (describe index e0 <$> sfs) phs (withRows l vars scope)
  = Some (phs ++ (BindVar <$> seq (S (length vars))
                                  (length (List.filter (selected exist) sfs))),
          withRows (<[index := writeBack exist e0 sfs e]> l)
                   (vars ++ (boundValue e0 <$> List.filter (selected exist) sfs))
                   scope).
Proof.
  induction sfs as [|sf rest IH]; intros phs l vars e Hl Hr Hne Hap Hall.
  - simpl. by rewrite !app_nil_r, list_insert_id.
  - change (pathsApart (Names sf :: (Names <$> rest)) = true) in Hap.
    apply pathsApart_cons in Hap as [Hsf Hap].
    inversion Hne as [|? ? Hn Hne']; subst.
    inversion Hall as [|? ? [Hsome Heq] Hrest]; subst.
    cbn [fmap list_fmap batchCreate_row List.filter].
    change (default false (exist !! Name (describe index e0 sf)))
      with (selected exist sf).
    unfold writeBack, storeAll. cbn [foldl]. unfold writes at 2.
    destruct (selected exist sf) eqn:Hsel; cbn [andb].
    + rewrite (batchCreate_value_record _ _ _ _ _ _ _ Hl Hr Hn Hsome Heq).
      cbn [mbind option_bind]. unfold AddToVars. cbn [SQLVars withRows setSQLVars].
      set (e1 := store sf (if writesDefault e0 sf then Some (defaultOf sf) else None)
                       e).
      change (setSQLVars (vars ++ [boundValue e0 sf])
                (withRows (<[index:=e1]> l) vars scope))
        with (withRows (<[index:=e1]> l) (vars ++ [boundValue e0 sf]) scope).
      pose proof (lookup_lt_Some _ _ _ Hl) as Hlt.
      assert (isRecord e1 = true ∧
              Forall (λ sf', is_Some (getPath (Names sf') e1)
                             ∧ getPath (Names sf') e1 = getPath (Names sf') e0) rest)
        as [Hr1 Hall1].
      { subst e1. unfold store. destruct (writesDefault e0 sf); [|done].
        destruct (setPath_is_Some (Names sf) (defaultOf sf) e) as [e' He']; [done|].
        rewrite He'. simpl. split; [by eapply setPath_record|].
        apply Forall_forall. intros sf' Hin.
        rewrite Forall_forall in Hrest. destruct (Hrest _ Hin) as [Hs' Heq'].
        rewrite Forall_forall in Hsf.
        rewrite (setPath_getPath_ne _ _ _ _ _ (Hsf _ (list_elem_of_fmap_2 _ _ _ Hin)) He').
        done. }
      rewrite (IH _ (<[index:=e1]> l) _ e1); auto.
      * rewrite list_insert_insert_eq. cbn [length fmap list_fmap].
        rewrite length_app. cbn [length]. rewrite Nat.add_1_r.
        by rewrite <- !app_assoc.
      * by apply list_lookup_insert_eq.
    + by apply IH.
Qed.


Lemma rowValues_length model e : length (rowValues model e) = length (rowFields model).
Proof. unfold rowValues. by rewrite length_fmap. Qed.

Lemma finish_settle model e :
  wfModel model = true → conforms model e = true →
  finish model (settle model e) = finish model e.
Proof. intros Hwf Hc. unfold finish. by rewrite settle_idemp. Qed.

Lemma rowValues_settle model e :
  wfModel model = true → conforms model e = true →
  rowValues model (settle model e) = rowValues model e.
Proof. intros Hwf Hc. unfold rowValues. by rewrite settle_idemp. Qed.

(** Lines 105-134 on records of the model's type: the rows of the elements
    [es], which [pre] precedes and [post] follows in the collection. *)
Lemma batchCreate_rows_record scope :
  let model := ModelStructFields scope in
  wfModel model = true →
  ∀ es pre post vars phsPre phsMid phsPost,
  Forall (λ e, conforms model e = true) es →
  length phsPre = length pre → length phsMid = length es →
  batchCreate_rows (columnNames model) (seq (length pre) (length es))
    (phsPre ++ phsMid ++ phsPost) (withRows (pre ++ es ++ post) vars scope)
  = Some (phsPre ++ rowPlaceholders (length (rowFields model)) (length es) (length vars)
            ++ phsPost,
          withRows (pre ++ (finish model <$> es) ++ post)
                   (vars ++ concat (rowValues model <$> es)) scope).
Proof.
  intros model Hwf.
  induction es as [|e es IH];
    intros pre post vars phsPre phsMid phsPost Hall HlenPre HlenMid.
  - destruct phsMid; [|done]. simpl. by rewrite app_nil_r.
  - destruct phsMid as [|ph phsMid]; [done|].
    inversion Hall as [|? ? He Hes]; subst.
    cbn [length seq batchCreate_rows].
    assert ((pre ++ (e :: es) ++ post) !! length pre = Some e) as Hl.
    { by rewrite lookup_app_r, Nat.sub_diag by lia. }
    rewrite (FiledsWithIndexForBatch_record
               (withRows (pre ++ (e :: es) ++ post) vars scope) _ _ _
               eq_refl Hl Hwf He).
    cbn [mbind option_bind].
    change (ModelStructFields (withRows (pre ++ (e :: es) ++ post) vars scope))
      with model.
    change (setIndirectValue (VSlice ?l) (withRows _ vars scope))
      with (withRows l vars scope).
    pose proof (wfModel_inv _ Hwf) as [Hne Hap].
    pose proof (settle_conforms _ _ Hwf He) as Hc.
    apply conforms_inv in Hc as [Hr Hw].
    pose proof (conforms_inv _ _ He) as [_ Hw0].
    pose proof (settle_found _ _ Hap Hw0) as Hfound.
    erewrite (batchCreate_row_record _ _ (settle model e) _ model [] _ vars
                (settle model e)); auto; cycle 1.
    { apply list_lookup_insert_eq. rewrite length_app. simpl. lia. }
    { eapply Forall_impl; [exact Hfound|]. by intros sf Hs. }
    cbn [mbind option_bind app].
    rewrite list_insert_insert_eq.
    fold (rowFields model). fold (rowValues model e). fold (finish model e).
    assert (∀ (x : list string),
              <[length pre := x]> (phsPre ++ ph :: phsMid ++ phsPost)
              = (phsPre ++ [x]) ++ phsMid ++ phsPost) as ->.
    { intros x. rewrite <- HlenPre, insert_app_r_alt, Nat.sub_diag by lia.
      simpl. by rewrite <- app_assoc. }
    assert (∀ (x : gval),
              <[length pre := x]> (pre ++ e :: es ++ post)
              = (pre ++ [x]) ++ es ++ post) as ->.
    { intros x. rewrite insert_app_r_alt, Nat.sub_diag by lia.
      simpl. by rewrite <- app_assoc. }
    replace (S (length pre)) with (length (pre ++ [finish model e]))
      by (rewrite length_app; simpl; lia).
    rewrite IH; auto; cycle 1.
    { rewrite !length_app. simpl. lia. }
    cbn [rowPlaceholders fmap list_fmap concat].
    rewrite length_app, rowValues_length.
    by rewrite <- !app_assoc.
Qed.

Lemma batchCreate_columns_describe (g : StructField → Field) :
  (∀ sf, FStructField (g sf) = sf) →
  ∀ sfs columns exist,
  batchCreate_columns (g <$> sfs) columns exist
  = (columns ++ ((λ sf, Quote (DBName sf)) <$> List.filter persistable sfs),
     foldl (λ m sf, <[Name sf := true]> m) exist (List.filter persistable sfs)).
Proof.
  intros Hg. induction sfs as [|sf rest IH]; intros columns exist.
  - simpl. by rewrite app_nil_r.
  - cbn [fmap list_fmap batchCreate_columns List.filter].
    rewrite (Hg sf). unfold persistable at 1 4.
    destruct (IsNormal sf), (IsIgnored sf); cbn [negb orb andb]; try apply IH.
    rewrite IH. cbn [fmap list_fmap foldl]. by rewrite <- app_assoc.
Qed.

End RowFacts.

(** ** The batch-insert callback on records of the model's type *)

Section BatchCreateFacts.
Context `{Dialect} `{Collaborators}.

Lemma batchCreateCallback_records scope l :
  HasError scope = false → IndirectValue scope = VSlice l → l ≠ [] →
  wfModel (ModelStructFields scope) = true →
  Forall (λ e, conforms (ModelStructFields scope) e = true) l →
  List.filter persistable (ModelStructFields scope) ≠ [] →
  batchCreateCallback scope = Some (batchCreate_exec (batchCreate_statement scope l)).
Proof.
  intros Herr Hv Hnil Hwf Hall Hcols.
  destruct l as [|e0 es]; [done|].
  inversion Hall as [|? ? He0 Hes]; subst.
  unfold batchCreateCallback. rewrite Herr. cbn [negb NowFunc].
  change (IndirectValue (tick scope)) with (IndirectValue scope). rewrite Hv.
  rewrite (proj2 (Z.leb_gt _ _)) by (simpl; lia).
  change 0 with (Z.of_nat 0).
  rewrite (FiledsWithIndexForBatch_record (tick scope) _ 0 e0 Hv eq_refl Hwf He0).
  cbn [mbind option_bind].
  change (ModelStructFields (tick scope)) with (ModelStructFields scope).
  rewrite (batchCreate_columns_describe (describe _ _) (λ _, eq_refl)).
  fold (columnNames (ModelStructFields scope)).
  fold (columnList (ModelStructFields scope)). cbn [app].
  rewrite (proj2 (Z.leb_gt _ _)); cycle 1.
  { unfold columnList. rewrite length_fmap.
    destruct (List.filter persistable (ModelStructFields scope)); [done|].
    simpl. lia. }
  change (setIndirectValue (VSlice (<[0%nat:=?x]> (e0 :: es))) (tick scope))
    with (withRows (x :: es) (SQLVars scope) (tick scope)).
  pose proof (batchCreate_rows_record (tick scope) Hwf
                (settle (ModelStructFields scope) e0 :: es) [] [] (SQLVars scope)
                [] (replicate (length (e0 :: es)) []) []) as Hrows.
  change (ModelStructFields (tick scope)) with (ModelStructFields scope) in Hrows.
  rewrite !app_nil_r in Hrows. cbn [app length] in Hrows.
  cbn [length]. rewrite Hrows; cycle 1.
  { constructor; [by apply settle_conforms|done]. }
  { done. }
  { by rewrite length_replicate. }
  cbn [mbind option_bind]. do 2 f_equal.
  unfold batchCreate_statement.
  cbn [fmap list_fmap length].
  rewrite finish_settle, rowValues_settle by done.
  reflexivity.
Qed.

End BatchCreateFacts.

(** ** Properties of the write-backs *)

Section StoreFacts.
Import ReflectFacts.

Lemma store_getPath_other sf x e q :
  apart (Names sf) q = true → getPath q (store sf x e) = getPath q e.
Proof.
  intros Hap. destruct x as [x|]; simpl; [|done].
  destruct (setPath (Names sf) x e) as [e'|] eqn:Hset; simpl; [|done].
  by eapply setPath_getPath_ne.
Qed.

Lemma store_getPath_eq sf x e :
  is_Some (getPath (Names sf) e) →
  getPath (Names sf) (store sf (Some x) e) = Some x.
Proof.
  intros Hsome. simpl.
  destruct (setPath_is_Some (Names sf) x e Hsome) as [e' He']. rewrite He'.
  simpl. by eapply setPath_getPath_eq.
Qed.

Lemma store_record sf x e :
  Names sf ≠ [] → isRecord e = true → isRecord (store sf x e) = true.
Proof.
  intros Hn Hr. destruct x as [x|]; simpl; [|done].
  destruct (setPath (Names sf) x e) as [e'|] eqn:Hset; simpl; [|done].
  by eapply setPath_record.
Qed.

Lemma storeAll_getPath_other w q : ∀ sfs e,
  Forall (λ sf, apart (Names sf) q = true) sfs →
  getPath q (storeAll w sfs e) = getPath q e.
Proof.
  induction sfs as [|sf rest IH]; intros e Hall; [done|].
  inversion Hall; subst. unfold storeAll. cbn [foldl].
  fold (storeAll w rest (store sf (w sf) e)).
  rewrite IH by done. by apply store_getPath_other.
Qed.

Lemma storeAll_record w : ∀ sfs e,
  Forall (λ sf, Names sf ≠ []) sfs → isRecord e = true →
  isRecord (storeAll w sfs e) = true.
Proof.
  induction sfs as [|sf rest IH]; intros e Hne Hr; [done|].
  inversion Hne; subst. unfold storeAll. cbn [foldl].
  fold (storeAll w rest (store sf (w sf) e)).
  apply IH; [done|]. by apply store_record.
Qed.

(** After the stores every field of the model holds what was stored in it,
    or what it held. *)
Lemma storeAll_getPath w : ∀ sfs e,
  pathsApart (Names <$> sfs) = true →
  Forall (λ sf, is_Some (getPath (Names sf) e)) sfs →
  Forall (λ sf, getPath (Names sf) (storeAll w sfs e)
                = match w sf with
                  | Some x => Some x
                  | None => getPath (Names sf) e
                  end) sfs.
Proof.
  induction sfs as [|sf rest IH]; intros e Hap Hall; [done|].
  change (pathsApart (Names sf :: (Names <$> rest)) = true) in Hap.
  apply pathsApart_cons in Hap as [Hsf Hap].
  inversion Hall as [|? ? Hsome Hrest]; subst.
  unfold storeAll. cbn [foldl]. fold (storeAll w rest (store sf (w sf) e)).
  assert (∀ sf', sf' ∈ rest → apart (Names sf) (Names sf') = true) as Hsf'.
  { intros sf' Hin. rewrite Forall_forall in Hsf. apply Hsf.
    by apply list_elem_of_fmap_2. }
  constructor.
  - rewrite storeAll_getPath_other.
    + destruct (w sf) as [x|]; [by apply store_getPath_eq|done].
    + apply Forall_forall. intros sf' Hin. rewrite apart_sym. auto.
  - specialize (IH (store sf (w sf) e) Hap).
    eapply Forall_impl.
    + apply Forall_and. split; [apply IH|apply Forall_forall; exact Hsf'].
      apply Forall_forall. intros sf' Hin.
      rewrite store_getPath_other by auto.
      rewrite Forall_forall in Hrest. auto.
    + intros sf' [Hget Hap']. simpl in *. rewrite Hget.
      by rewrite store_getPath_other.
Qed.

End StoreFacts.

(** ** The timestamp callback *)

Section TimeStampFacts.
Context `{Dialect} `{Collaborators}.
Import ReflectFacts.

Lemma slotStore_record l index e names x :
  l !! index = Some e → isRecord e = true → names ≠ [] →
  slotStore {| slotIndex := index; slotPath := names |} x (VSlice l)
  = VSlice (<[index := default e (setPath names x e)]> l).
Proof.
  intros Hl Hr Hn. destruct (setPath names x e) as [e'|] eqn:Hset.
  - by eapply slotStore_element.
  - simpl. rewrite list_insert_id by done.
    apply isRecord_inv in Hr as [fs He]. destruct names as [|name rest]; [done|].
    rewrite <- (setPath_element _ _ _ _ _ He) in Hset.
    unfold slotStore. cbn [slotIndex slotPath]. rewrite Hl, He.
    cbn [mbind option_bind].
    by destruct (setPath (name :: rest) x (VStruct fs)).
Qed.

(** Lines 51-60 on the descriptors of a record. *)
Lemma updateTimeStamp_fields_record now index e0 scope : ∀ sfs l e,
  l !! index = Some e → isRecord e = true →
  Forall (λ sf, Names sf ≠ []) sfs →
  updateTimeStamp_fields now (describe index e0 <$> sfs)
    (setIndirectValue (VSlice l) scope)
  = setIndirectValue (VSlice (<[index := storeAll (stamps now e0) sfs e]> l)) scope.
Proof.
  induction sfs as [|sf rest IH]; intros l e Hl Hr Hne.
  - simpl. by rewrite list_insert_id.
  - inversion Hne as [|? ? Hn Hne']; subst.
    cbn [fmap list_fmap updateTimeStamp_fields].
    change (IsBlank (describe index e0 sf)) with (blankIn e0 sf).
    change (Name (describe index e0 sf)) with (Name sf).
    unfold storeAll. cbn [foldl]. unfold stamps at 2.
    pose proof (lookup_lt_Some _ _ _ Hl) as Hlt.
    destruct (blankIn e0 sf); cbn [negb andb].
    + destruct (bool_decide (Name sf = "CreatedAt")
                || bool_decide (Name sf = "UpdatedAt")).
      * unfold FieldSet.
        cbn [describe FieldValue IndirectValue setIndirectValue].
        rewrite (slotStore_record _ _ _ _ _ Hl Hr Hn).
        change (setIndirectValue ?v (setIndirectValue _ scope))
          with (setIndirectValue v scope).
        erewrite IH; [|by apply list_lookup_insert_eq| |done].
        -- by rewrite list_insert_insert_eq.
        -- by apply (store_record sf (Some now)).
      * by apply IH.
    + by apply IH.
Qed.

Lemma updateTimeStamp_fields_detached now scope : ∀ sfs,
  updateTimeStamp_fields now (detached <$> sfs) scope = scope.
Proof.
  induction sfs as [|sf rest IH]; [done|].
  cbn [fmap list_fmap updateTimeStamp_fields]. cbn [detached IsBlank negb].
  by destruct (_ || _).
Qed.

Lemma stampElement_record now model e :
  isRecord e = true →
  stampElement now model e
  = storeAll (stamps now (settle model e)) model (settle model e).
Proof. intros Hr. unfold stampElement. by rewrite Hr. Qed.

(** Lines 49-61: the elements [es], which [pre] precedes and [post]
    follows in the collection. *)
Lemma updateTimeStamp_elements_spec now scope :
  let model := ModelStructFields scope in
  wfModel model = true →
  ∀ es pre post,
  Forall (λ e, isRecord e = false ∨ conforms model e = true) es →
  updateTimeStamp_elements now (seq (length pre) (length es))
    (setIndirectValue (VSlice (pre ++ es ++ post)) scope)
  = Some (setIndirectValue
            (VSlice (pre ++ (stampElement now model <$> es) ++ post)) scope).
Proof.
  intros model Hwf. induction es as [|e es IH]; intros pre post Hall; [done|].
  inversion Hall as [|? ? He Hes]; subst.
  cbn [length seq updateTimeStamp_elements].
  assert ((pre ++ (e :: es) ++ post) !! length pre = Some e) as Hl.
  { by rewrite lookup_app_r, Nat.sub_diag by lia. }
  assert (∀ (x : gval),
            <[length pre := x]> (pre ++ e :: es ++ post)
            = (pre ++ [x]) ++ es ++ post) as Hins.
  { intros x. rewrite insert_app_r_alt, Nat.sub_diag by lia.
    simpl. by rewrite <- app_assoc. }
  destruct (isRecord e) eqn:Hr.
  - destruct He as [?|He]; [done|].
    rewrite (FiledsWithIndexForBatch_record
               (setIndirectValue (VSlice (pre ++ (e :: es) ++ post)) scope)
               _ _ _ eq_refl Hl Hwf He).
    cbn [mbind option_bind].
    change (ModelStructFields (setIndirectValue _ scope)) with model.
    change (setIndirectValue ?v (setIndirectValue _ scope))
      with (setIndirectValue v scope).
    pose proof (wfModel_inv _ Hwf) as [Hne Hap].
    pose proof (settle_conforms _ _ Hwf He) as [Hr' _]%conforms_inv.
    rewrite (updateTimeStamp_fields_record _ _ _ _ _ _ (settle model e));
      [|apply list_lookup_insert_eq; by eapply lookup_lt_Some|done|done].
    rewrite list_insert_insert_eq, <- (stampElement_record _ _ _ Hr), Hins.
    replace (S (length pre)) with (length (pre ++ [stampElement now model e]))
      by (rewrite length_app; simpl; lia).
    rewrite IH by done. cbn [fmap list_fmap app].
    by rewrite <- app_assoc.
  - rewrite (FiledsWithIndexForBatch_detached
               (setIndirectValue (VSlice (pre ++ (e :: es) ++ post)) scope)
               _ _ _ eq_refl Hl Hr).
    cbn [mbind option_bind]. rewrite updateTimeStamp_fields_detached.
    cbn [fmap list_fmap]. unfold stampElement at 1. rewrite Hr.
    specialize (IH (pre ++ [e]) post Hes).
    rewrite length_app, Nat.add_1_r in IH. cbn [length] in IH.
    rewrite <- !app_assoc in IH. exact IH.
Qed.

(** The callback on a collection of records of the model's type and of
    elements that are no records. *)
Lemma updateTimeStampForBatchCreateCallback_spec scope l :
  HasError scope = false → IndirectValue scope = VSlice l →
  wfModel (ModelStructFields scope) = true →
  Forall (λ e, isRecord e = false ∨ conforms (ModelStructFields scope) e = true) l →
  updateTimeStampForBatchCreateCallback scope
  = Some (setIndirectValue
            (VSlice (stampElement (Now (Clock scope)) (ModelStructFields scope) <$> l))
            (tick scope)).
Proof.
  intros Herr Hv Hwf Hall. unfold updateTimeStampForBatchCreateCallback.
  rewrite Herr. cbn [negb NowFunc].
  change (IndirectValue (tick scope)) with (IndirectValue scope). rewrite Hv.
  pose proof (updateTimeStamp_elements_spec (Now (Clock scope)) (tick scope)
                Hwf l [] [] Hall) as Hspec.
  change (ModelStructFields (tick scope)) with (ModelStructFields scope) in Hspec.
  rewrite !app_nil_r in Hspec. cbn [app length] in Hspec.
  assert (setIndirectValue (VSlice l) (tick scope) = tick scope) as Hid
    by (rewrite <- Hv; by destruct scope).
  by rewrite Hid in Hspec.
Qed.

End TimeStampFacts.

(** ** Error handling of the callbacks *)

Section ErrorFacts.
Context `{Dialect} `{Collaborators}.

Lemma HasError_false scope : HasError scope = false → Error scope = None.
Proof. unfold HasError. by destruct (Error scope). Qed.

Lemma Err_fresh e scope :
  HasError scope = false → Err (Some e) scope = setError (Some e) scope.
Proof. intros Hnone%HasError_false. unfold Err. by rewrite Hnone. Qed.

(** C10: on a target that is no slice, and on an index at or beyond the
    length of the slice, [FiledsWithIndexForBatch] returns no descriptor and
    leaves the context -- its error slot and every element -- as it was. *)
Theorem FiledsWithIndexForBatch_nil scope index :
  (KindOf (IndirectValue scope) ≠ Slice
   ∨ ∃ l, IndirectValue scope = VSlice l ∧ Z.of_nat (length l) ≤ index) →
  FiledsWithIndexForBatch scope index = Some ([], scope).
Proof.
  unfold FiledsWithIndexForBatch. intros [Hk|(l & -> & Hlen)].
  - by destruct (IndirectValue scope).
  - by rewrite (proj2 (Z.leb_le _ _)).
Qed.

(** A target that is no slice but holds a value: each of the three
    callbacks records its own input-shape error, with that value, on the
    context and does nothing else -- the second and the third after they
    have read the clock. *)
Theorem nonSlice_input_shape_error scope :
  HasError scope = false → KindOf (IndirectValue scope) ≠ Slice →
  KindOf (IndirectValue scope) ≠ Invalid →
  beforeBatchCreateCallback scope
  = Some (inputShapeError "beforeBatchCreateCallback" scope)
  ∧ updateTimeStampForBatchCreateCallback scope
    = Some (inputShapeError "updateTimeStampForBatchCreateCallback" (tick scope))
  ∧ batchCreateCallback scope
    = Some (inputShapeError "batchCreateCallback" (tick scope)).
Proof.
  intros Herr Hk Hvalid.
  unfold beforeBatchCreateCallback, updateTimeStampForBatchCreateCallback,
    batchCreateCallback, inputShapeError.
  rewrite Herr. cbn [negb NowFunc].
  change (IndirectValue (tick scope)) with (IndirectValue scope).
  assert (HasError (tick scope) = false) as Herr' by exact Herr.
  destruct (IndirectValue scope) eqn:Hv; try done;
    cbn [valueInterface mbind option_bind]; by rewrite !Err_fresh by done.
Qed.

(** C8: a request that was handed nil, or a nil pointer, has a target that
    is no slice; on it each of the three callbacks panics while it formats
    its message -- [Interface()] on the zero [reflect.Value] -- and so comes
    back without an error recorded on the context. *)
Theorem nil_target_panics scope :
  HasError scope = false → IndirectValue scope = VInvalid →
  KindOf (IndirectValue scope) ≠ Slice
  ∧ beforeBatchCreateCallback scope = None
  ∧ updateTimeStampForBatchCreateCallback scope = None
  ∧ batchCreateCallback scope = None.
Proof.
  intros Herr Hv.
  unfold beforeBatchCreateCallback, updateTimeStampForBatchCreateCallback,
    batchCreateCallback.
  rewrite Herr. cbn [negb NowFunc].
  change (IndirectValue (tick scope)) with (IndirectValue scope).
  by rewrite Hv.
Qed.

(** C7: on a context that carries an error each callback is a no-op, so
    the callbacks that follow the one that recorded an error leave the
    context -- error, elements, statement, executed statements -- as that
    callback left it. *)
Theorem callbacks_skip_on_error scope :
  HasError scope = true →
  beforeBatchCreateCallback scope = Some scope
  ∧ updateTimeStampForBatchCreateCallback scope = Some scope
  ∧ batchCreateCallback scope = Some scope
  ∧ (∀ scope0, beforeBatchCreateCallback scope0 = Some scope →
               runBatchCreate scope0 = Some scope)
  ∧ (∀ scope0 scope1, beforeBatchCreateCallback scope0 = Some scope1 →
                      updateTimeStampForBatchCreateCallback scope1 = Some scope →
                      runBatchCreate scope0 = Some scope).
Proof.
  intros Herr.
  assert (beforeBatchCreateCallback scope = Some scope) as Hb
    by (unfold beforeBatchCreateCallback; by rewrite Herr).
  assert (updateTimeStampForBatchCreateCallback scope = Some scope) as Hu
    by (unfold updateTimeStampForBatchCreateCallback; by rewrite Herr).
  assert (batchCreateCallback scope = Some scope) as Hc
    by (unfold batchCreateCallback; by rewrite Herr).
  repeat split; try done.
  - intros scope0 Hfirst. unfold runBatchCreate. rewrite Hfirst. simpl.
    rewrite Hu. simpl. done.
  - intros scope0 scope1 Hfirst Hsecond. unfold runBatchCreate.
    rewrite Hfirst. simpl. rewrite Hsecond. simpl. done.
Qed.

End ErrorFacts.

(** ** Preconditions of the batch-insert callback *)

Section PreconditionFacts.
Context `{Dialect} `{Collaborators}.
Import ReflectFacts.

(** C6: with no error on the context, [batchCreateCallback] on an empty
    slice records the empty-slice error; on a slice that is not empty and
    whose model has no normal, non-ignored field it records the
    empty-columns error.  The two errors differ from each other and from the
    input-shape error, and in both cases no statement is assembled, no
    parameter is bound and nothing is executed. *)
Theorem batchCreate_preconditions scope l :
  HasError scope = false → IndirectValue scope = VSlice l →
  (l = [] ∨ List.filter persistable (ModelStructFields scope) = []) →
  firstExtractable (ModelStructFields scope) l = true →
  ∃ scope',
    batchCreateCallback scope = Some scope'
    ∧ Error scope'
      = Some (Errorf (match l with
                      | [] => batchCreate_emptySlice
                      | _ :: _ => batchCreate_emptyColumns
                      end) (IndirectValue scope'))
    ∧ nothingSent scope scope'
    ∧ batchCreate_emptySlice ≠ batchCreate_emptyColumns
    ∧ batchCreate_nonSlice ≠ batchCreate_emptySlice
    ∧ batchCreate_nonSlice ≠ batchCreate_emptyColumns.
Proof.
  intros Herr Hv Hcase Hfirst.
  pose proof (HasError_false _ Herr) as Hnone.
  unfold batchCreateCallback. rewrite Herr. cbn [negb NowFunc].
  change (IndirectValue (tick scope)) with (IndirectValue scope). rewrite Hv.
  destruct l as [|e0 es].
  - eexists. split; [done|]. unfold Err. cbn [Error tick setClock].
    rewrite Hnone. simpl. rewrite Hv. by repeat split.
  - destruct Hcase as [?|Hcols]; [done|].
    rewrite (proj2 (Z.leb_gt _ _)) by (simpl; lia).
    change 0 with (Z.of_nat 0). simpl in Hfirst.
    destruct (isRecord e0) eqn:Hr; simpl in Hfirst.
    + apply andb_prop in Hfirst as [Hwf Hc].
      rewrite (FiledsWithIndexForBatch_record (tick scope) _ 0 e0 Hv eq_refl Hwf Hc).
      cbn [mbind option_bind].
      change (ModelStructFields (tick scope)) with (ModelStructFields scope).
      rewrite (batchCreate_columns_describe (describe _ _) (λ _, eq_refl)).
      rewrite Hcols. simpl. eexists. split; [done|].
      unfold Err. simpl. rewrite Hnone. simpl. by repeat split.
    + rewrite (FiledsWithIndexForBatch_detached (tick scope) _ 0 e0 Hv eq_refl Hr).
      cbn [mbind option_bind].
      change (ModelStructFields (tick scope)) with (ModelStructFields scope).
      rewrite (batchCreate_columns_describe detached (λ _, eq_refl)).
      rewrite Hcols. simpl. eexists. split; [done|].
      unfold Err. cbn [Error tick setClock]. rewrite Hnone. simpl. by repeat split.
Qed.

End PreconditionFacts.

(** ** The statement and its bound parameters *)

Section StatementFacts.
Context `{Dialect} `{Collaborators}.
Import ReflectFacts.

Lemma append_assoc (a b c : string) : (a +:+ b) +:+ c = a +:+ b +:+ c.
Proof.
  induction a as [|ch a IH]; [done|].
  change (String.String ch ((a +:+ b) +:+ c) = String.String ch (a +:+ b +:+ c)).
  by rewrite IH.
Qed.

Lemma append_nil_r (a : string) : a +:+ "" = a.
Proof.
  induction a as [|ch a IH]; [done|].
  change (String.String ch (a +:+ "") = String.String ch a). by rewrite IH.
Qed.

Lemma batchCreate_sql_split columns placeholders extraOption :
  batchCreate_sql columns placeholders extraOption
  = valuesClause columns placeholders +:+ addExtraSpaceIfExist extraOption.
Proof. unfold batchCreate_sql, valuesClause. by rewrite !append_assoc. Qed.

Lemma batchCreate_exec_SQL scope : SQL (batchCreate_exec scope) = SQL scope.
Proof.
  unfold batchCreate_exec. destruct (Exec _ _); [done|].
  unfold Err. simpl. by destruct (Error scope).
Qed.

Lemma batchCreate_exec_SQLVars scope :
  SQLVars (batchCreate_exec scope) = SQLVars scope.
Proof.
  unfold batchCreate_exec. destruct (Exec _ _); [done|].
  unfold Err. simpl. by destruct (Error scope).
Qed.

Lemma batchCreate_exec_IndirectValue scope :
  IndirectValue (batchCreate_exec scope) = IndirectValue scope.
Proof.
  unfold batchCreate_exec. destruct (Exec _ _); [done|].
  unfold Err. simpl. by destruct (Error scope).
Qed.

(** C9: the text of an insert option the context carries follows the
    VALUES clause unchanged, one space apart; without the setting, and with
    an empty text, the statement ends with its VALUES clause. *)
Theorem insert_option_appended scope l :
  HasError scope = false → IndirectValue scope = VSlice l → l ≠ [] →
  wfModel (ModelStructFields scope) = true →
  Forall (λ e, conforms (ModelStructFields scope) e = true) l →
  List.filter persistable (ModelStructFields scope) ≠ [] →
  ∃ scope',
    batchCreateCallback scope = Some scope'
    ∧ let clause :=
        valuesClause (columnList (ModelStructFields scope))
          (rowPlaceholders (length (rowFields (ModelStructFields scope)))
                           (length l) (length (SQLVars scope))) in
      (∀ option, Get "gorm:insert_option" scope = Some option →
                 SQL scope' = clause +:+ addExtraSpaceIfExist (Sprint option))
      ∧ (∀ text, Get "gorm:insert_option" scope = Some (VString text) →
                 text ≠ "" → SQL scope' = clause +:+ " " +:+ text)
      ∧ (Get "gorm:insert_option" scope = None → SQL scope' = clause).
Proof.
  intros Herr Hv Hnil Hwf Hall Hcols.
  eexists. split; [by apply batchCreateCallback_records|].
  cbn zeta. rewrite batchCreate_exec_SQL. unfold batchCreate_statement, Raw.
  cbn [SQL setSQL]. rewrite batchCreate_sql_split. unfold insertOption.
  repeat split.
  - by intros option ->.
  - intros text -> Htext. cbn [Sprint]. unfold addExtraSpaceIfExist.
    by rewrite decide_False.
  - intros ->. unfold addExtraSpaceIfExist. rewrite decide_True by done.
    apply append_nil_r.
Qed.

Lemma concat_lookup_uniform {A} (width : nat) : ∀ (rows : list (list A)) (i k : nat),
  Forall (λ row, length row = width) rows → (k < width)%nat →
  concat rows !! (i * width + k)%nat = rows !! i ≫= (.!! k).
Proof.
  induction rows as [|row rows IH]; intros i k Hall Hk; [done|].
  inversion Hall as [|? ? Hrow Hrows]; subst. simpl.
  destruct i as [|i]; simpl.
  - rewrite lookup_app_l by lia. done.
  - rewrite lookup_app_r by lia.
    replace (length row + i * length row + k - length row)%nat
      with (i * length row + k)%nat by lia.
    by apply IH.
Qed.

Lemma filter_fmap_describe index e (p : StructField → bool) sfs :
  List.filter (λ field : Field, p field) (describe index e <$> sfs)
  = describe index e <$> List.filter p sfs.
Proof.
  induction sfs as [|sf rest IH]; [done|].
  cbn [fmap list_fmap List.filter].
  change (p (describe index e sf)) with (p sf).
  destruct (p sf); cbn [fmap list_fmap]; by rewrite IH.
Qed.

Lemma filter_elem_of {A} (p : A → bool) (x : A) l :
  x ∈ List.filter p l → x ∈ l ∧ p x = true.
Proof. intros Hin%list_elem_of_In%filter_In. by rewrite list_elem_of_In. Qed.

Lemma filter_lookup_take {A} (p : A → bool) : ∀ (l : list A) (j : nat) (x : A),
  l !! j = Some x → p x = true →
  List.filter p l !! length (List.filter p (take j l)) = Some x.
Proof.
  induction l as [|a l IH]; intros j x Hl Hp; [done|].
  destruct j as [|j]; simpl in *.
  - injection Hl as ->. by rewrite Hp.
  - destruct (p a); simpl; by apply IH.
Qed.

Lemma foldl_insert_true (sf : StructField) :
  ∀ (sfs : list StructField) (m : gmap string bool),
  sf ∈ sfs ∨ m !! Name sf = Some true →
  foldl (λ m sf', <[Name sf' := true]> m) m sfs !! Name sf = Some true.
Proof.
  induction sfs as [|sf' rest IH]; intros m Hcase; simpl.
  - destruct Hcase as [Hin|Hm]; [by apply elem_of_nil in Hin|done].
  - apply IH. destruct Hcase as [Hin|Hm].
    + apply elem_of_cons in Hin as [->|Hin]; [|by left].
      right. apply lookup_insert_eq.
    + right. destruct (decide (Name sf' = Name sf)) as [Heq|Hne].
      * rewrite Heq. apply lookup_insert_eq.
      * by rewrite lookup_insert_ne.
Qed.

(** Every field of the Column Set passes the rows' test on names. *)
Lemma selected_persistable model sf :
  sf ∈ model → persistable sf = true → selected (columnNames model) sf = true.
Proof.
  intros Hin Hpers. unfold selected, columnNames.
  rewrite foldl_insert_true; [done|]. left.
  apply list_elem_of_In, filter_In. by rewrite <- list_elem_of_In.
Qed.

(** The value bound for the [k]-th field of row [i], and the element
    after the call. *)
Lemma batchCreate_bound_value scope l (i k : nat) fields scope_i (field : Field) :
  let model := ModelStructFields scope in
  HasError scope = false → IndirectValue scope = VSlice l →
  wfModel model = true → Forall (λ e, conforms model e = true) l →
  FiledsWithIndexForBatch scope (Z.of_nat i) = Some (fields, scope_i) →
  List.filter (λ f : Field, selected (columnNames model) f) fields !! k
  = Some field →
  persistable field = true →
  ∃ e sf,
    l !! i = Some e ∧ field = describe i (settle model e) sf
    ∧ sf ∈ model ∧ selected (columnNames model) sf = true
    ∧ batchCreateCallback scope = Some (batchCreate_exec (batchCreate_statement scope l))
    ∧ SQLVars (batchCreate_statement scope l)
        !! (length (SQLVars scope) + i * length (rowFields model) + k)%nat
      = Some (boundValue (settle model e) sf)
    ∧ FieldInterface field (batchCreate_statement scope l)
      = match writes (columnNames model) (settle model e) sf with
        | Some x => Some x
        | None => getPath (Names sf) (settle model e)
        end.
Proof.
  intros model Herr Hv Hwf Hall Hfields Hk Hpers.
  destruct (l !! i) as [e|] eqn:Hl; cycle 1.
  { rewrite (FiledsWithIndexForBatch_beyond scope l i Hv Hl) in Hfields.
    injection Hfields as <- _. done. }
  assert (conforms model e = true) as He.
  { rewrite Forall_forall in Hall. apply Hall. by eapply list_elem_of_lookup_2. }
  rewrite (FiledsWithIndexForBatch_record scope l i e Hv Hl Hwf He) in Hfields.
  injection Hfields as <- _.
  rewrite filter_fmap_describe, list_lookup_fmap in Hk.
  fold model in Hk. fold (rowFields model) in Hk.
  destruct (rowFields model !! k) as [sf|] eqn:Hsf; [|done].
  simpl in Hk. injection Hk as <-.
  pose proof (list_elem_of_lookup_2 _ _ _ Hsf) as [Hin Hsel]%filter_elem_of.
  exists e, sf. split; [done|]. split; [done|]. split; [done|]. split; [done|].
  assert (List.filter persistable model ≠ []) as Hcols.
  { intros Hnone.
    assert (In sf (List.filter persistable model)) as Hin'
      by (apply filter_In; split; [by apply list_elem_of_In|done]).
    rewrite Hnone in Hin'. done. }
  assert (l ≠ []) as Hnil by (intros ->; done).
  split; [by apply batchCreateCallback_records|].
  pose proof (wfModel_inv _ Hwf) as [Hne Hap].
  pose proof (conforms_inv _ _ He) as [Hr Hw].
  split.
  - unfold batchCreate_statement, Raw, withRows. cbn [SQLVars setSQL setSQLVars].
    rewrite <- Nat.add_assoc, lookup_app_r, Nat.add_sub' by lia.
    rewrite (concat_lookup_uniform (length (rowFields model))).
    + rewrite list_lookup_fmap, Hl. simpl. unfold rowValues. fold model.
      by rewrite list_lookup_fmap, Hsf.
    + apply Forall_forall. intros row (e' & -> & _)%list_elem_of_fmap.
      apply rowValues_length.
    + by eapply lookup_lt_Some.
  - unfold FieldInterface, batchCreate_statement, Raw, withRows.
    cbn [describe FieldValue mbind option_bind IndirectValue setSQL setSQLVars
         setIndirectValue].
    assert (Names sf ≠ []) as Hn by (rewrite Forall_forall in Hne; auto).
    assert (isRecord (settle model e) = true) as Hrs by (by apply settle_record).
    rewrite (slotLoad_element _ _ (finish model e)); [| |by apply storeAll_record|done].
    + pose proof (storeAll_getPath (writes (columnNames model) (settle model e))
                    model (settle model e) Hap (settle_found _ _ Hap Hw)) as Hget.
      rewrite Forall_forall in Hget. by apply Hget.
    + by rewrite list_lookup_fmap, Hl.
Qed.

(** The same for the [j]-th descriptor of element [i], a field of the
    Column Set. *)
Lemma batchCreate_bound_column scope l (i j : nat) fields scope_i (field : Field) :
  let model := ModelStructFields scope in
  HasError scope = false → IndirectValue scope = VSlice l →
  wfModel model = true → Forall (λ e, conforms model e = true) l →
  FiledsWithIndexForBatch scope (Z.of_nat i) = Some (fields, scope_i) →
  fields !! j = Some field → persistable field = true →
  ∃ e sf,
    l !! i = Some e ∧ field = describe i (settle model e) sf
    ∧ selected (columnNames model) sf = true
    ∧ batchCreateCallback scope = Some (batchCreate_exec (batchCreate_statement scope l))
    ∧ SQLVars (batchCreate_statement scope l)
        !! (length (SQLVars scope) + i * length (rowFields model)
            + valueIndex model fields j)%nat
      = Some (boundValue (settle model e) sf)
    ∧ FieldInterface field (batchCreate_statement scope l)
      = match writes (columnNames model) (settle model e) sf with
        | Some x => Some x
        | None => getPath (Names sf) (settle model e)
        end.
Proof.
  intros model Herr Hv Hwf Hall Hfields Hj Hpers.
  assert (selected (columnNames model) field = true) as Hsel.
  { destruct (l !! i) as [e|] eqn:Hl; cycle 1.
    { rewrite (FiledsWithIndexForBatch_beyond scope l i Hv Hl) in Hfields.
      injection Hfields as <- _. done. }
    assert (conforms model e = true) as He.
    { rewrite Forall_forall in Hall. apply Hall. by eapply list_elem_of_lookup_2. }
    rewrite (FiledsWithIndexForBatch_record scope l i e Hv Hl Hwf He) in Hfields.
    injection Hfields as <- _.
    apply list_elem_of_lookup_2, list_elem_of_fmap in Hj as (sf & -> & Hin).
    by apply selected_persistable. }
  pose proof (filter_lookup_take
                (λ f : Field, selected (columnNames model) f) fields j field Hj Hsel)
    as Hk.
  destruct (batchCreate_bound_value scope l i _ fields scope_i field
              Herr Hv Hwf Hall Hfields Hk Hpers)
    as (e & sf & Hl & Hfield & Hin & Hsel' & Hrun & Hvar & Hget).
  exists e, sf. by repeat (split; [done|]).
Qed.

End StatementFacts.

(** ** Bound values, write-back and timestamps *)

Section ValueFacts.
Context `{Dialect} `{Collaborators}.
Import ReflectFacts.

Lemma FieldInterface_batchCreate_exec field scope :
  FieldInterface field (batchCreate_exec scope) = FieldInterface field scope.
Proof. unfold FieldInterface. by rewrite batchCreate_exec_IndirectValue. Qed.

(** C3: every field of the Column Set that the extractor finds blank, that
    is not the primary key and has a default is bound to the default -- in
    row [i], at the place of the field's descriptor among the values of the
    row -- and the same default is what the element's field holds after the
    call. *)
Theorem default_bound_and_written_back scope l (i j : nat) fields scope_i
    (field : Field) :
  HasError scope = false → IndirectValue scope = VSlice l →
  wfModel (ModelStructFields scope) = true →
  Forall (λ e, conforms (ModelStructFields scope) e = true) l →
  FiledsWithIndexForBatch scope (Z.of_nat i) = Some (fields, scope_i) →
  fields !! j = Some field →
  persistable field = true →
  IsBlank field = true → IsPrimaryKey field = false →
  HasDefaultValue field = true →
  ∃ scope',
    batchCreateCallback scope = Some scope'
    ∧ SQLVars scope'
        !! (length (SQLVars scope)
            + i * length (rowFields (ModelStructFields scope))
            + valueIndex (ModelStructFields scope) fields j)%nat
      = Some (defaultOf field)
    ∧ FieldInterface field scope' = Some (defaultOf field).
Proof.
  intros Herr Hv Hwf Hall Hfields Hj Hpers Hblank Hpk Hdef.
  destruct (batchCreate_bound_column scope l i j fields scope_i field
              Herr Hv Hwf Hall Hfields Hj Hpers)
    as (e & sf & Hl & -> & Hsel & Hrun & Hvar & Hget).
  change (blankIn (settle (ModelStructFields scope) e) sf = true) in Hblank.
  change (IsPrimaryKey sf = false) in Hpk.
  change (HasDefaultValue sf = true) in Hdef.
  eexists. split; [exact Hrun|].
  rewrite batchCreate_exec_SQLVars, FieldInterface_batchCreate_exec, Hvar, Hget.
  unfold boundValue, writes, writesDefault.
  rewrite Hsel, Hblank, Hpk, Hdef. done.
Qed.

(** C4: every primary key of the Column Set that the extractor finds blank
    is bound to nil -- in row [i], at the place of the field's descriptor
    among the values of the row -- whatever its zero value is and whether or
    not it has a default. *)
Theorem blank_primary_key_bound_nil scope l (i j : nat) fields scope_i
    (field : Field) :
  HasError scope = false → IndirectValue scope = VSlice l →
  wfModel (ModelStructFields scope) = true →
  Forall (λ e, conforms (ModelStructFields scope) e = true) l →
  FiledsWithIndexForBatch scope (Z.of_nat i) = Some (fields, scope_i) →
  fields !! j = Some field →
  persistable field = true →
  IsBlank field = true → IsPrimaryKey field = true →
  ∃ scope',
    batchCreateCallback scope = Some scope'
    ∧ SQLVars scope'
        !! (length (SQLVars scope)
            + i * length (rowFields (ModelStructFields scope))
            + valueIndex (ModelStructFields scope) fields j)%nat
      = Some VNil.
Proof.
  intros Herr Hv Hwf Hall Hfields Hj Hpers Hblank Hpk.
  destruct (batchCreate_bound_column scope l i j fields scope_i field
              Herr Hv Hwf Hall Hfields Hj Hpers)
    as (e & sf & Hl & -> & Hsel & Hrun & Hvar & Hget).
  change (blankIn (settle (ModelStructFields scope) e) sf = true) in Hblank.
  change (IsPrimaryKey sf = true) in Hpk.
  eexists. split; [exact Hrun|].
  rewrite batchCreate_exec_SQLVars, Hvar.
  unfold boundValue. by rewrite Hblank, Hpk.
Qed.

End ValueFacts.

(** ** Arity of the statement *)

Section ArityFacts.
Context `{Dialect} `{Collaborators}.






End ArityFacts.

(** ** More on the extractor *)

Section ExtractorProperties.
Context `{Dialect} `{Collaborators}.
Import ReflectFacts.

Lemma pathsApart_elem_of paths p q :
  pathsApart paths = true → p ∈ paths → q ∈ paths → p = q ∨ apart p q = true.
Proof.
  induction paths as [|a rest IH]; intros Hap Hp Hq; [by apply elem_of_nil in Hp|].
  apply pathsApart_cons in Hap as [Ha Hrest]. rewrite Forall_forall in Ha.
  apply elem_of_cons in Hp as [->|Hp]; apply elem_of_cons in Hq as [->|Hq]; auto.
  right. rewrite apart_sym. auto.
Qed.

Lemma wfModel_off_the_way model sf :
  wfModel model = true → sf ∈ model →
  Forall (λ sf', hasPrefix (Names sf) (Names sf') = false ∨ Names sf = Names sf')
         model.
Proof.
  intros [_ Hap]%wfModel_inv Hin. apply Forall_forall. intros sf' Hin'.
  destruct (pathsApart_elem_of _ (Names sf) (Names sf') Hap) as [Heq|Hapart];
    [by apply list_elem_of_fmap_2..| |].
  - by right.
  - left. by apply apart_hasPrefix.
Qed.

(** On a record of the model's type the extractor yields one descriptor per
    schema field, in the order of the model, each with a handle on the
    field its name path leads to; afterwards every handle can be read, and
    the blank flag of a descriptor is the blank test of what its field
    holds. *)
Theorem extractor_describes_record scope l (i : nat) e :
  IndirectValue scope = VSlice l → l !! i = Some e →
  wfModel (ModelStructFields scope) = true →
  conforms (ModelStructFields scope) e = true →
  ∃ fields scope',
    FiledsWithIndexForBatch scope (Z.of_nat i) = Some (fields, scope')
    ∧ FStructField <$> fields = ModelStructFields scope
    ∧ Forall (λ field : Field,
                FieldValue field
                = Some {| slotIndex := i; slotPath := Names field |}
                ∧ ∃ v, FieldInterface field scope' = Some v
                       ∧ IsBlank field = isBlank v) fields.
Proof.
  intros Hv Hl Hwf He. set (model := ModelStructFields scope) in *.
  eexists _, _. split; [by apply FiledsWithIndexForBatch_record|].
  fold model. split.
  - rewrite <- list_fmap_compose. by rewrite list_fmap_id.
  - pose proof (wfModel_inv _ Hwf) as [Hne Hap].
    pose proof (conforms_inv _ _ He) as [Hr Hw].
    pose proof (settle_found _ _ Hap Hw) as Hfound.
    apply Forall_fmap, Forall_forall. intros sf Hin. split; [done|].
    rewrite Forall_forall in Hfound. destruct (Hfound sf Hin) as [v Hget].
    exists v. unfold FieldInterface.
    cbn [describe FieldValue mbind option_bind IndirectValue setIndirectValue].
    rewrite (slotLoad_element _ _ (settle model e)).
    + split; [done|]. cbn [describe IsBlank]. unfold current. by rewrite Hget.
    + apply list_lookup_insert_eq. by eapply lookup_lt_Some.
    + by apply settle_record.
    + rewrite Forall_forall in Hne. auto.
Qed.

(** On an element that is no record -- a nil pointer, a value that is no
    struct -- the extractor yields one descriptor per schema field, all
    blank and without handle, and leaves the context as it was. *)
Theorem extractor_detaches_non_record scope l (i : nat) e :
  IndirectValue scope = VSlice l → l !! i = Some e → isRecord e = false →
  ∃ fields,
    FiledsWithIndexForBatch scope (Z.of_nat i) = Some (fields, scope)
    ∧ FStructField <$> fields = ModelStructFields scope
    ∧ Forall (λ field : Field, FieldValue field = None ∧ IsBlank field = true)
             fields.
Proof.
  intros Hv Hl Hr. eexists. split; [by eapply FiledsWithIndexForBatch_detached|].
  split.
  - rewrite <- list_fmap_compose. by rewrite list_fmap_id.
  - by apply Forall_fmap, Forall_forall.
Qed.

(** The extractor writes to the element it is asked for nothing but what
    it allocates: the element stays a record, a field of the model that
    could be read before holds the same value after, the collection keeps
    its length and the rest of the context stays as it was. *)
Theorem extractor_only_allocates scope l (i : nat) e :
  IndirectValue scope = VSlice l → l !! i = Some e →
  wfModel (ModelStructFields scope) = true →
  conforms (ModelStructFields scope) e = true →
  ∃ fields scope' l' e',
    FiledsWithIndexForBatch scope (Z.of_nat i) = Some (fields, scope')
    ∧ scope' = setIndirectValue (VSlice l') scope
    ∧ length l' = length l
    ∧ l' !! i = Some e' ∧ isRecord e' = true
    ∧ ∀ sf v, sf ∈ ModelStructFields scope →
              getPath (Names sf) e = Some v → getPath (Names sf) e' = Some v.
Proof.
  intros Hv Hl Hwf He. set (model := ModelStructFields scope) in *.
  pose proof (wfModel_inv _ Hwf) as [Hne Hap].
  pose proof (conforms_inv _ _ He) as [Hr Hw].
  eexists _, _, _, (settle model e).
  split; [by apply FiledsWithIndexForBatch_record|].
  split; [done|]. split; [by rewrite length_insert|].
  split; [apply list_lookup_insert_eq; by eapply lookup_lt_Some|].
  split; [by apply settle_record|].
  intros sf v Hin Hget. apply settle_getPath; [|done].
  by apply wfModel_off_the_way.
Qed.

(** Asked a second time for the same element, the extractor yields the same
    descriptors and changes nothing. *)
Theorem extractor_idempotent scope l (i : nat) e :
  IndirectValue scope = VSlice l → l !! i = Some e →
  wfModel (ModelStructFields scope) = true →
  isRecord e = false ∨ conforms (ModelStructFields scope) e = true →
  ∃ fields scope',
    FiledsWithIndexForBatch scope (Z.of_nat i) = Some (fields, scope')
    ∧ FiledsWithIndexForBatch scope' (Z.of_nat i) = Some (fields, scope').
Proof.
  intros Hv Hl Hwf Hcase. set (model := ModelStructFields scope) in *.
  destruct (isRecord e) eqn:Hr.
  - destruct Hcase as [?|He]; [done|].
    eexists _, _. split; [by apply FiledsWithIndexForBatch_record|].
    fold model.
    rewrite (FiledsWithIndexForBatch_record
               (setIndirectValue (VSlice (<[i:=settle model e]> l)) scope)
               (<[i:=settle model e]> l) i (settle model e) eq_refl);
      [|apply list_lookup_insert_eq; by eapply lookup_lt_Some|done
       |by apply settle_conforms].
    change (ModelStructFields (setIndirectValue _ scope)) with model.
    by rewrite settle_idemp, list_insert_insert_eq.
  - eexists _, _. split; by eapply FiledsWithIndexForBatch_detached.
Qed.

End ExtractorProperties.

(** ** More on the statement, its parameters and its execution *)

Section StatementProperties.
Context `{Dialect} `{Collaborators}.
Import ReflectFacts.




(** The statement is handed to the database once, with the text and the
    parameters the context then carries.  When the database answers with a
    count, that count is the context's affected-row count and no error is
    recorded; when it answers with an error, that error is recorded and the
    affected-row count stays as it was. *)
Theorem batchCreate_executes_once scope l :
  HasError scope = false → IndirectValue scope = VSlice l → l ≠ [] →
  wfModel (ModelStructFields scope) = true →
  Forall (λ e, conforms (ModelStructFields scope) e = true) l →
  List.filter persistable (ModelStructFields scope) ≠ [] →
  ∃ scope',
    batchCreateCallback scope = Some scope'
    ∧ Executed scope' = Executed scope ++ [(SQL scope', SQLVars scope')]
    ∧ match Exec (SQL scope') (SQLVars scope') with
      | inl rowsAffected =>
          RowsAffected scope' = rowsAffected ∧ Error scope' = None
      | inr err =>
          Error scope' = Some err ∧ RowsAffected scope' = RowsAffected scope
      end.
Proof.
  intros Herr Hv Hnil Hwf Hall Hcols.
  pose proof (HasError_false _ Herr) as Hnone.
  eexists. split; [by apply batchCreateCallback_records|].
  rewrite batchCreate_exec_SQL, batchCreate_exec_SQLVars.
  set (statement := batchCreate_statement scope l).
  assert (Error statement = None) as Hnone' by done.
  unfold batchCreate_exec.
  destruct (Exec (SQL statement) (SQLVars statement)) as [rowsAffected|err].
  - by repeat split.
  - unfold Err. cbn [Error setExecuted]. rewrite Hnone'. by repeat split.
Qed.

(** The descriptors of a record before and after the call. *)
Lemma descriptor_at_extraction scope l (i : nat) e sf :
  let model := ModelStructFields scope in
  l !! i = Some e → wfModel model = true → conforms model e = true →
  sf ∈ model →
  FieldInterface (describe i (settle model e) sf)
                 (setIndirectValue (VSlice (<[i:=settle model e]> l)) scope)
  = getPath (Names sf) (settle model e).
Proof.
  intros model Hl Hwf He Hin.
  pose proof (wfModel_inv _ Hwf) as [Hne Hap].
  pose proof (conforms_inv _ _ He) as [Hr Hw].
  unfold FieldInterface.
  cbn [describe FieldValue mbind option_bind IndirectValue setIndirectValue].
  apply slotLoad_element.
  - apply list_lookup_insert_eq. by eapply lookup_lt_Some.
  - by apply settle_record.
  - rewrite Forall_forall in Hne. auto.
Qed.

Lemma descriptor_after_batch scope l (i : nat) e sf :
  let model := ModelStructFields scope in
  l !! i = Some e → wfModel model = true → conforms model e = true →
  sf ∈ model →
  FieldInterface (describe i (settle model e) sf)
                 (batchCreate_exec (batchCreate_statement scope l))
  = match writes (columnNames model) (settle model e) sf with
    | Some x => Some x
    | None => getPath (Names sf) (settle model e)
    end.
Proof.
  intros model Hl Hwf He Hin.
  pose proof (wfModel_inv _ Hwf) as [Hne Hap].
  pose proof (conforms_inv _ _ He) as [Hr Hw].
  rewrite FieldInterface_batchCreate_exec.
  unfold FieldInterface, batchCreate_statement, Raw, withRows.
  cbn [describe FieldValue mbind option_bind IndirectValue setSQL setSQLVars
       setIndirectValue].
  fold model.
  rewrite (slotLoad_element _ _ (finish model e)).
  - pose proof (storeAll_getPath (writes (columnNames model) (settle model e))
                  model (settle model e) Hap (settle_found _ _ Hap Hw)) as Hget.
    rewrite Forall_forall in Hget. by apply Hget.
  - by rewrite list_lookup_fmap, Hl.
  - apply storeAll_record; [done|]. by apply settle_record.
  - rewrite Forall_forall in Hne. auto.
Qed.

(** A field of the Column Set that is not blank, and a blank one that is
    neither the primary key nor has a default, is bound to the value the
    field holds -- in row [i], at the place of the field's descriptor among
    the values of the row -- and holds that value after the call. *)
Theorem value_bound_as_is scope l (i j : nat) fields scope_i (field : Field) :
  HasError scope = false → IndirectValue scope = VSlice l →
  wfModel (ModelStructFields scope) = true →
  Forall (λ e, conforms (ModelStructFields scope) e = true) l →
  FiledsWithIndexForBatch scope (Z.of_nat i) = Some (fields, scope_i) →
  fields !! j = Some field →
  persistable field = true →
  IsBlank field = false
  ∨ (IsPrimaryKey field = false ∧ HasDefaultValue field = false) →
  ∃ scope' v,
    batchCreateCallback scope = Some scope'
    ∧ FieldInterface field scope_i = Some v
    ∧ SQLVars scope'
        !! (length (SQLVars scope)
            + i * length (rowFields (ModelStructFields scope))
            + valueIndex (ModelStructFields scope) fields j)%nat
      = Some v
    ∧ FieldInterface field scope' = Some v.
Proof.
  intros Herr Hv Hwf Hall Hfields Hj Hpers Hcase.
  set (model := ModelStructFields scope) in *.
  destruct (batchCreate_bound_column scope l i j fields scope_i field
              Herr Hv Hwf Hall Hfields Hj Hpers)
    as (e & sf & Hl & -> & Hsel & Hrun & Hvar & Hget).
  fold model in Hvar, Hget.
  assert (conforms model e = true) as He.
  { rewrite Forall_forall in Hall. apply Hall. by eapply list_elem_of_lookup_2. }
  rewrite (FiledsWithIndexForBatch_record scope l i e Hv Hl Hwf He) in Hfields.
  injection Hfields as <- <-. fold model in Hj, Hvar |- *.
  apply list_elem_of_lookup_2, list_elem_of_fmap in Hj as (sf' & Hsf' & Hin).
  assert (sf' = sf) as -> by (by apply (f_equal FStructField) in Hsf').
  pose proof (wfModel_inv _ Hwf) as [Hne Hap].
  pose proof (conforms_inv _ _ He) as [Hr Hw].
  pose proof (settle_found _ _ Hap Hw) as Hfound. rewrite Forall_forall in Hfound.
  destruct (Hfound sf Hin) as [v Hv'].
  exists (batchCreate_exec (batchCreate_statement scope l)), v.
  split; [exact Hrun|].
  pose proof (descriptor_at_extraction scope l i e sf Hl Hwf He Hin) as Hat.
  cbv zeta in Hat. fold model in Hat. rewrite Hat. split; [done|].
  rewrite batchCreate_exec_SQLVars, FieldInterface_batchCreate_exec, Hvar, Hget.
  assert (current (settle model e) sf = v) as Hcur
    by (unfold current; by rewrite Hv').
  change (blankIn (settle model e) sf = false
          ∨ IsPrimaryKey sf = false ∧ HasDefaultValue sf = false) in Hcase.
  unfold boundValue, writes, writesDefault. rewrite Hcur.
  destruct Hcase as [Hblank|[Hpk Hdef]].
  - rewrite Hblank. simpl. by rewrite andb_false_r.
  - rewrite Hpk, Hdef. simpl. rewrite !andb_false_r.
    by destruct (blankIn (settle model e) sf).
Qed.

(** The call writes nothing back but defaults: a field of an element --
    column or not -- holds after the call what the extractor found in it,
    unless it passes the rows' test on names, is blank, is not the primary
    key and has a default.  The collection keeps its length. *)
Theorem only_defaults_written_back scope l (i : nat) fields scope_i (field : Field) :
  HasError scope = false → IndirectValue scope = VSlice l →
  wfModel (ModelStructFields scope) = true →
  Forall (λ e, conforms (ModelStructFields scope) e = true) l →
  List.filter persistable (ModelStructFields scope) ≠ [] →
  FiledsWithIndexForBatch scope (Z.of_nat i) = Some (fields, scope_i) →
  field ∈ fields →
  selected (columnNames (ModelStructFields scope)) field && IsBlank field
    && negb (IsPrimaryKey field) && HasDefaultValue field = false →
  ∃ scope' l',
    batchCreateCallback scope = Some scope'
    ∧ FieldInterface field scope' = FieldInterface field scope_i
    ∧ IndirectValue scope' = VSlice l' ∧ length l' = length l.
Proof.
  intros Herr Hv Hwf Hall Hcols Hfields Hin Hcase.
  set (model := ModelStructFields scope) in *.
  destruct (l !! i) as [e|] eqn:Hl; cycle 1.
  { rewrite (FiledsWithIndexForBatch_beyond scope l i Hv Hl) in Hfields.
    injection Hfields as <- _. by apply elem_of_nil in Hin. }
  assert (l ≠ []) as Hnil by (intros ->; done).
  assert (conforms model e = true) as He.
  { rewrite Forall_forall in Hall. apply Hall. by eapply list_elem_of_lookup_2. }
  rewrite (FiledsWithIndexForBatch_record scope l i e Hv Hl Hwf He) in Hfields.
  injection Hfields as <- <-. fold model in Hin |- *.
  apply list_elem_of_fmap in Hin as (sf & -> & Hin).
  eexists _, _. split; [by apply batchCreateCallback_records|].
  pose proof (descriptor_after_batch scope l i e sf Hl Hwf He Hin) as Hafter.
  pose proof (descriptor_at_extraction scope l i e sf Hl Hwf He Hin) as Hat.
  cbv zeta in Hafter, Hat. fold model in Hafter, Hat. rewrite Hafter, Hat.
  split.
  - unfold writes, writesDefault.
    change (selected (columnNames model) sf && blankIn (settle model e) sf
            && negb (IsPrimaryKey sf) && HasDefaultValue sf = false) in Hcase.
    rewrite !andb_assoc. by rewrite Hcase.
  - rewrite batchCreate_exec_IndirectValue. split; [done|].
    by rewrite length_fmap.
Qed.

End StatementProperties.

(** ** More on the timestamp callback and on the callbacks in a row *)

Section PipelineProperties.
Context `{Dialect} `{Collaborators}.
Import ReflectFacts.

Lemma setPath_same names : ∀ v x,
  getPath names v = Some x → setPath names x v = Some v.
Proof.
  induction names as [|name rest IH]; simpl; intros v x Hg; [congruence|].
  destruct (Indirect v) as [s|] eqn:Hs; simpl in *; [|done].
  destruct (structFields s) as [fs|] eqn:Hfs; simpl in *; [|done].
  destruct (lookupField name fs) as [fv|] eqn:Hfv; simpl in *; [|done].
  rewrite (IH _ _ Hg). simpl. rewrite (updateField_id _ _ _ Hfv).
  destruct s; try done. simpl in Hfs. injection Hfs as ->.
  by rewrite (storeIndirect_id _ _ Hs).
Qed.

Lemma storeAll_noop w : ∀ sfs e,
  Forall (λ sf, ∀ x, w sf = Some x → getPath (Names sf) e = Some x) sfs →
  storeAll w sfs e = e.
Proof.
  induction sfs as [|sf rest IH]; intros e Hall; [done|].
  inversion Hall as [|? ? Hsf Hrest]; subst.
  unfold storeAll. cbn [foldl]. fold (storeAll w rest (store sf (w sf) e)).
  assert (store sf (w sf) e = e) as ->; [|by apply IH].
  destruct (w sf) as [x|]; [|done]. simpl.
  by rewrite (setPath_same _ _ _ (Hsf x eq_refl)).
Qed.

(** The fields of a record after the timestamp callback. *)
Lemma stampElement_getPath now model e :
  wfModel model = true → conforms model e = true →
  isRecord (stampElement now model e) = true
  ∧ Forall (λ sf, getPath (Names sf) (stampElement now model e)
                  = match stamps now (settle model e) sf with
                    | Some x => Some x
                    | None => getPath (Names sf) (settle model e)
                    end) model
  ∧ Forall (λ sf, is_Some (getPath (Names sf) (stampElement now model e))) model.
Proof.
  intros Hwf He.
  pose proof (wfModel_inv _ Hwf) as [Hne Hap].
  pose proof (conforms_inv _ _ He) as [Hr Hw].
  pose proof (settle_found _ _ Hap Hw) as Hfound.
  rewrite (stampElement_record _ _ _ Hr).
  pose proof (storeAll_getPath (stamps now (settle model e)) model
                (settle model e) Hap Hfound) as Hget.
  split; [apply storeAll_record; [done|by apply settle_record]|].
  split; [done|].
  rewrite Forall_forall in Hget, Hfound. apply Forall_forall. intros sf Hin.
  rewrite (Hget sf Hin). destruct (stamps _ _ sf); [eauto|auto].
Qed.

Lemma stampElement_extractable now model e :
  wfModel model = true →
  isRecord e = false ∨ conforms model e = true →
  isRecord (stampElement now model e) = false
  ∨ conforms model (stampElement now model e) = true.
Proof.
  intros Hwf Hcase. destruct (isRecord e) eqn:Hr.
  - destruct Hcase as [?|He]; [done|]. right.
    destruct (stampElement_getPath now model e Hwf He) as (Hr' & _ & Hfound).
    by apply conforms_intro.
  - left. unfold stampElement. by rewrite Hr.
Qed.

(** Once stamped with a time that is not blank, an element is left as it
    is by a second stamping, whatever the clock shows then. *)
Lemma stampElement_twice now now' model e :
  wfModel model = true →
  isRecord e = false ∨ conforms model e = true →
  isBlank now = false →
  stampElement now' model (stampElement now model e) = stampElement now model e.
Proof.
  intros Hwf Hcase Hnow. destruct (isRecord e) eqn:Hr; cycle 1.
  { unfold stampElement. by rewrite !Hr. }
  destruct Hcase as [?|He]; [done|].
  destruct (stampElement_getPath now model e Hwf He) as (Hr' & Hget & Hfound).
  set (e1 := stampElement now model e) in *.
  rewrite (stampElement_record _ _ e1 Hr'), (settle_settled _ _ Hfound).
  apply storeAll_noop. rewrite Forall_forall in Hget. apply Forall_forall.
  intros sf Hin x Hx. exfalso.
  unfold stamps, blankIn, current in Hx. rewrite (Hget sf Hin) in Hx.
  unfold stamps, blankIn, current in Hx.
  destruct (isBlank (default VNil (getPath (Names sf) (settle model e)))) eqn:Hblank;
    destruct (bool_decide (Name sf = "CreatedAt")
              || bool_decide (Name sf = "UpdatedAt")) eqn:Hname;
    simpl in Hx; rewrite ?Hnow, ?Hblank in Hx; simpl in Hx; congruence.
Qed.

(** C5: the timestamp callback reads the clock once, and what the clock
    shows at that reading is what every blank field named CreatedAt or
    UpdatedAt holds after the call, in every element; every other field of
    the model holds what it held.  What a field holds is what is found in it
    once the nil pointers on its name path are allocated, which is what could
    be read in it before wherever it could be read.  An element that is no
    record is left as it is, the collection keeps its length and nothing
    else changes on the context. *)
Theorem updateTimeStamp_stamps_blank_fields scope l :
  HasError scope = false → IndirectValue scope = VSlice l →
  wfModel (ModelStructFields scope) = true →
  Forall (λ e, isRecord e = false ∨ conforms (ModelStructFields scope) e = true) l →
  ∃ l',
    updateTimeStampForBatchCreateCallback scope
    = Some (setIndirectValue (VSlice l') (tick scope))
    ∧ length l' = length l
    ∧ (∀ (i : nat) e sf,
        l !! i = Some e → isRecord e = true → sf ∈ ModelStructFields scope →
        ∃ e' v,
          l' !! i = Some e'
          ∧ getPath (Names sf) (settle (ModelStructFields scope) e) = Some v
          ∧ (∀ w, getPath (Names sf) e = Some w → w = v)
          ∧ getPath (Names sf) e'
            = Some (if isBlank v
                       && (bool_decide (Name sf = "CreatedAt")
                           || bool_decide (Name sf = "UpdatedAt"))
                    then Now (Clock scope) else v))
    ∧ ∀ (i : nat) e, l !! i = Some e → isRecord e = false → l' !! i = Some e.
Proof.
  intros Herr Hv Hwf Hall. set (model := ModelStructFields scope) in *.
  exists (stampElement (Now (Clock scope)) model <$> l).
  split; [by apply updateTimeStampForBatchCreateCallback_spec|].
  split; [by rewrite length_fmap|].
  split; cycle 1.
  { intros i e Hl Hr. rewrite list_lookup_fmap, Hl. simpl.
    unfold stampElement. by rewrite Hr. }
  intros i e sf Hl Hr Hin.
  assert (conforms model e = true) as He.
  { rewrite Forall_forall in Hall.
    destruct (Hall e (list_elem_of_lookup_2 _ _ _ Hl)) as [?|?]; congruence. }
  pose proof (wfModel_inv _ Hwf) as [Hne Hap].
  pose proof (conforms_inv _ _ He) as [_ Hw].
  pose proof (settle_found _ _ Hap Hw) as Hfound. rewrite Forall_forall in Hfound.
  destruct (Hfound sf Hin) as [v Hsettled].
  destruct (stampElement_getPath (Now (Clock scope)) model e Hwf He)
    as (_ & Hget & _).
  rewrite Forall_forall in Hget.
  exists (stampElement (Now (Clock scope)) model e), v.
  split; [by rewrite list_lookup_fmap, Hl|]. split; [done|]. split.
  - intros w Hw'.
    pose proof (settle_getPath model (Names sf) e w
                  (wfModel_off_the_way model sf Hwf Hin) Hw') as Hsame.
    congruence.
  - rewrite (Hget sf Hin). unfold stamps, blankIn, current. rewrite Hsettled.
    change (default VNil (Some v)) with v. by destruct (isBlank v && _).
Qed.

(** Run a second time, the timestamp callback only reads the clock: what
    the first run stamped is not blank, so nothing is stamped again,
    whatever the clock shows at the second reading. *)
Theorem updateTimeStamp_idempotent scope l :
  HasError scope = false → IndirectValue scope = VSlice l →
  wfModel (ModelStructFields scope) = true →
  Forall (λ e, isRecord e = false ∨ conforms (ModelStructFields scope) e = true) l →
  isBlank (Now (Clock scope)) = false →
  ∃ scope',
    updateTimeStampForBatchCreateCallback scope = Some scope'
    ∧ updateTimeStampForBatchCreateCallback scope' = Some (tick scope').
Proof.
  intros Herr Hv Hwf Hall Hnow. set (model := ModelStructFields scope) in *.
  set (now := Now (Clock scope)) in *.
  eexists. split; [by apply updateTimeStampForBatchCreateCallback_spec|].
  fold model. fold now.
  rewrite (updateTimeStampForBatchCreateCallback_spec
             (setIndirectValue (VSlice (stampElement now model <$> l)) (tick scope))
             (stampElement now model <$> l) Herr eq_refl Hwf).
  - change (ModelStructFields (setIndirectValue _ (tick scope))) with model.
    set (now' := Now _).
    assert (stampElement now' model <$> (stampElement now model <$> l)
            = stampElement now model <$> l) as ->; [|done].
    rewrite <- list_fmap_compose. apply list_fmap_ext.
    rewrite Forall_forall in Hall.
    intros k e Hk. apply stampElement_twice; [done| |done].
    apply Hall. by eapply list_elem_of_lookup_2.
  - change (ModelStructFields (setIndirectValue _ (tick scope))) with model.
    apply Forall_fmap. eapply Forall_impl; [exact Hall|].
    intros e He. by apply stampElement_extractable.
Qed.

(** The timestamp callback passes over an element that is no record -- a
    nil pointer is neither allocated nor a reason to panic -- and the
    collection keeps its length. *)
Theorem updateTimeStamp_skips_non_records scope l :
  HasError scope = false → IndirectValue scope = VSlice l →
  wfModel (ModelStructFields scope) = true →
  Forall (λ e, isRecord e = false ∨ conforms (ModelStructFields scope) e = true) l →
  ∃ scope' l',
    updateTimeStampForBatchCreateCallback scope = Some scope'
    ∧ IndirectValue scope' = VSlice l' ∧ length l' = length l
    ∧ ∀ (i : nat) e, l !! i = Some e → isRecord e = false → l' !! i = Some e.
Proof.
  intros Herr Hv Hwf Hall.
  eexists _, _. split; [by apply updateTimeStampForBatchCreateCallback_spec|].
  split; [done|]. split; [by rewrite length_fmap|].
  intros i e Hl Hr. rewrite list_lookup_fmap, Hl. simpl.
  unfold stampElement. by rewrite Hr.
Qed.

(** On an empty slice, with no error on the context, the hook of the first
    element is not called, nothing is stamped, and the three callbacks in a
    row leave the context with the empty-slice error and nothing else
    changed but the clock, read once by each of the last two -- whatever the
    hook does where it is called. *)
Theorem runBatchCreate_empty_slice scope :
  HasError scope = false → IndirectValue scope = VSlice [] →
  beforeBatchCreateCallback scope = Some scope
  ∧ updateTimeStampForBatchCreateCallback scope = Some (tick scope)
  ∧ runBatchCreate scope
    = Some (setError (Some (Errorf batchCreate_emptySlice (VSlice [])))
                     (tick (tick scope))).
Proof.
  intros Herr Hv.
  assert (beforeBatchCreateCallback scope = Some scope) as Hb
    by (unfold beforeBatchCreateCallback; by rewrite Herr, Hv).
  assert (updateTimeStampForBatchCreateCallback scope = Some (tick scope)) as Hu.
  { unfold updateTimeStampForBatchCreateCallback. rewrite Herr. cbn [negb NowFunc].
    change (IndirectValue (tick scope)) with (IndirectValue scope).
    by rewrite Hv. }
  split; [done|]. split; [done|].
  unfold runBatchCreate. rewrite Hb. simpl. rewrite Hu. simpl.
  unfold batchCreateCallback.
  change (HasError (tick scope)) with (HasError scope). rewrite Herr.
  cbn [negb NowFunc].
  change (IndirectValue (tick (tick scope))) with (IndirectValue scope).
  rewrite Hv. cbn [length Z.of_nat Z.leb].
  change (0 ?= 0) with Eq. cbv iota. by rewrite Err_fresh.
Qed.

(** The timestamp callback and the batch-insert callback in a row: a
    column named CreatedAt or UpdatedAt that the extractor finds blank on
    entry is bound, in every row, to what the clock showed at the one
    reading of the timestamp callback -- provided that time is not itself
    blank. *)
Theorem stamped_time_is_bound scope l (i j : nat) fields scope_i (field : Field) :
  HasError scope = false → IndirectValue scope = VSlice l →
  wfModel (ModelStructFields scope) = true →
  Forall (λ e, conforms (ModelStructFields scope) e = true) l →
  isBlank (Now (Clock scope)) = false →
  FiledsWithIndexForBatch scope (Z.of_nat i) = Some (fields, scope_i) →
  fields !! j = Some field →
  persistable field = true → IsBlank field = true →
  Name field = "CreatedAt" ∨ Name field = "UpdatedAt" →
  ∃ scope1 scope2,
    updateTimeStampForBatchCreateCallback scope = Some scope1
    ∧ batchCreateCallback scope1 = Some scope2
    ∧ SQLVars scope2
        !! (length (SQLVars scope)
            + i * length (rowFields (ModelStructFields scope))
            + valueIndex (ModelStructFields scope) fields j)%nat
      = Some (Now (Clock scope)).
Proof.
  intros Herr Hv Hwf Hall Hnow Hfields Hj Hpers Hblank Hname.
  set (model := ModelStructFields scope) in *.
  set (now := Now (Clock scope)) in *.
  destruct (l !! i) as [e|] eqn:Hl; cycle 1.
  { rewrite (FiledsWithIndexForBatch_beyond scope l i Hv Hl) in Hfields.
    injection Hfields as <- _. done. }
  assert (l ≠ []) as Hnil by (intros ->; done).
  assert (conforms model e = true) as He.
  { rewrite Forall_forall in Hall. apply Hall. by eapply list_elem_of_lookup_2. }
  rewrite (FiledsWithIndexForBatch_record scope l i e Hv Hl Hwf He) in Hfields.
  injection Hfields as <- _. fold model in Hj |- *.
  pose proof Hj as Hj'.
  apply list_elem_of_lookup_2, list_elem_of_fmap in Hj' as (sf & -> & Hin).
  change (persistable sf = true) in Hpers.
  change (blankIn (settle model e) sf = true) in Hblank.
  change (Name sf = "CreatedAt" ∨ Name sf = "UpdatedAt") in Hname.
  pose proof (selected_persistable model sf Hin Hpers) as Hsel.
  pose proof (filter_lookup_take
                (λ f : Field, selected (columnNames model) f) _ j _ Hj Hsel) as Hk.
  fold (valueIndex model (describe i (settle model e) <$> model) j) in Hk.
  rewrite filter_fmap_describe, list_lookup_fmap in Hk.
  fold (rowFields model) in Hk.
  destruct (rowFields model !! valueIndex model _ j) as [sf'|] eqn:Hsf;
    [|done].
  simpl in Hk. injection Hk as Hsf' _. subst sf'.
  set (scope1 := setIndirectValue (VSlice (stampElement now model <$> l)) (tick scope)).
  assert (Forall (λ e, conforms model e = true) (stampElement now model <$> l))
    as Hall1.
  { apply Forall_fmap. eapply Forall_impl; [exact Hall|]. intros e' He'. simpl.
    destruct (stampElement_extractable now model e' Hwf (or_intror He'))
      as [Hno|Hyes]; [|done].
    destruct (stampElement_getPath now model e' Hwf He') as (Hr' & _).
    congruence. }
  assert (List.filter persistable model ≠ []) as Hcols.
  { intros Hnone.
    assert (In sf (List.filter persistable model)) as Hin'
      by (apply filter_In; split; [by apply list_elem_of_In|done]).
    by rewrite Hnone in Hin'. }
  exists scope1, (batchCreate_exec
                    (batchCreate_statement scope1 (stampElement now model <$> l))).
  split.
  { apply updateTimeStampForBatchCreateCallback_spec; try done.
    eapply Forall_impl; [exact Hall|]. by right. }
  split.
  { apply batchCreateCallback_records; try done. by destruct l. }
  rewrite batchCreate_exec_SQLVars.
  unfold batchCreate_statement, Raw, withRows. cbn [SQLVars setSQL setSQLVars].
  change (ModelStructFields scope1) with model.
  change (SQLVars scope1) with (SQLVars scope).
  rewrite <- Nat.add_assoc, lookup_app_r, Nat.add_sub' by lia.
  rewrite (concat_lookup_uniform (length (rowFields model))); cycle 1.
  { apply Forall_forall. intros row (e' & -> & _)%list_elem_of_fmap.
    apply rowValues_length. }
  { by eapply lookup_lt_Some. }
  rewrite !list_lookup_fmap, Hl. simpl. unfold rowValues.
  rewrite list_lookup_fmap, Hsf. simpl. f_equal.
  destruct (stampElement_getPath now model e Hwf He) as (Hr' & Hget & Hfound).
  rewrite (settle_settled _ _ Hfound).
  rewrite Forall_forall in Hget. specialize (Hget sf Hin).
  assert (stamps now (settle model e) sf = Some now) as Hst.
  { unfold stamps. rewrite Hblank.
    destruct Hname as [->| ->]; rewrite ?bool_decide_eq_true_2 by done;
      by rewrite ?orb_true_r. }
  rewrite Hst in Hget.
  unfold boundValue, blankIn, current. rewrite Hget. simpl. by rewrite Hnow.
Qed.

End PipelineProperties.

(** ** An element that is no record among the rows *)

Section PanicProperties.
Context `{Dialect} `{Collaborators}.
Import ReflectFacts.

Lemma batchCreate_rows_app exist : ∀ a b phs scope,
  batchCreate_rows exist (a ++ b) phs scope
  = batchCreate_rows exist a phs scope
    ≫= λ '(phs', scope'), batchCreate_rows exist b phs' scope'.
Proof.
  induction a as [|i a IH]; intros b phs scope; [done|].
  cbn [app batchCreate_rows].
  destruct (FiledsWithIndexForBatch scope (Z.of_nat i)) as [[fields scope1]|];
    [|done].
  cbn [mbind option_bind].
  destruct (batchCreate_row exist fields [] scope1) as [[vps scope2]|]; [|done].
  cbn [mbind option_bind]. apply IH.
Qed.

(** Lines 109-131 on the descriptors of an element that is no record. *)
Lemma batchCreate_row_detached_panics exist : ∀ sfs phs scope,
  Exists (λ sf, selected exist sf = true ∧ IsPrimaryKey sf = false
                ∧ HasDefaultValue sf = false) sfs →
  batchCreate_row exist (detached <$> sfs) phs scope = None.
Proof.
  induction sfs as [|sf rest IH]; intros phs scope Hex;
    [by apply Exists_nil in Hex|].
  cbn [fmap list_fmap batchCreate_row].
  change (default false (exist !! Name (detached sf))) with (selected exist sf).
  apply Exists_cons in Hex.
  destruct (selected exist sf) eqn:Hsel.
  - unfold batchCreate_value. cbn [detached IsBlank negb FStructField].
    destruct (IsPrimaryKey sf) eqn:Hpk; cbn [negb].
    + cbn [mbind option_bind]. unfold AddToVars. apply IH.
      destruct Hex as [(_ & ? & _)|?]; [congruence|done].
    + destruct (HasDefaultValue sf) eqn:Hdef.
      * cbn [mbind option_bind]. unfold AddToVars. apply IH.
        destruct Hex as [(_ & _ & ?)|?]; [congruence|done].
      * done.
  - apply IH. destruct Hex as [(? & _)|?]; [congruence|done].
Qed.

Lemma withRows_id scope l :
  IndirectValue scope = VSlice l → withRows l (SQLVars scope) scope = scope.
Proof. destruct scope. simpl. by intros ->. Qed.

Lemma batchCreate_rows_panic scope l vars (i : nat) e :
  let model := ModelStructFields scope in
  wfModel model = true →
  l !! i = Some e → isRecord e = false →
  Forall (λ e, conforms model e = true) (take i l) →
  Exists plainColumn model →
  batchCreate_rows (columnNames model) (seq 0 (length l))
    (replicate (length l) []) (withRows l vars scope) = None.
Proof.
  intros model Hwf Hl Hr Hconf Hex.
  pose proof (lookup_lt_Some _ _ _ Hl) as Hlt.
  replace (length l) with (i + (length l - i))%nat by lia.
  rewrite seq_app, batchCreate_rows_app, replicate_add. cbn [Nat.add].
  pose proof (batchCreate_rows_record scope Hwf (take i l) [] (drop i l) vars
                [] (replicate i []) (replicate (length l - i) []) Hconf eq_refl)
    as Hrec.
  rewrite length_take_le, length_replicate in Hrec by lia.
  cbn [app length] in Hrec. rewrite take_drop in Hrec.
  fold model in Hrec. rewrite Hrec by done. cbn [mbind option_bind].
  destruct (length l - i)%nat as [|m] eqn:Hm; [lia|].
  cbn [seq batchCreate_rows].
  rewrite (FiledsWithIndexForBatch_detached
             (withRows ((finish model <$> take i l) ++ drop i l)
                       (vars ++ concat (rowValues model <$> take i l)) scope)
             _ i e eq_refl); [| |done].
  - cbn [mbind option_bind].
    change (ModelStructFields (withRows _ _ scope)) with model.
    rewrite batchCreate_row_detached_panics; [done|].
    apply Exists_exists in Hex as (sf & Hin & Hp & Hpk & Hdef).
    apply Exists_exists. exists sf. split; [done|].
    split; [by apply selected_persistable|done].
  - rewrite lookup_app_r; rewrite length_fmap, length_take_le by lia; [|lia].
    by rewrite Nat.sub_diag, lookup_drop, Nat.add_0_r.
Qed.

(** An element that is no record -- a nil pointer in a slice of pointers
    -- makes the batch-insert callback panic as soon as the model has a
    column that is neither the primary key nor has a default: the
    descriptors of such an element have no handle to read the value from.
    No error is recorded and nothing is executed. *)
Theorem batchCreate_panics_on_non_record scope l (i : nat) e :
  HasError scope = false → IndirectValue scope = VSlice l →
  wfModel (ModelStructFields scope) = true →
  l !! i = Some e → isRecord e = false →
  Forall (λ e, conforms (ModelStructFields scope) e = true) (take i l) →
  Exists plainColumn (ModelStructFields scope) →
  batchCreateCallback scope = None.
Proof.
  intros Herr Hv Hwf Hl Hr Hconf Hex.
  set (model := ModelStructFields scope) in *.
  assert ((Z.of_nat (length (columnList model)) <=? 0) = false) as Hcols.
  { apply Z.leb_gt. unfold columnList. rewrite length_fmap.
    apply Exists_exists in Hex as (sf & Hin & Hp & _).
    assert (In sf (List.filter persistable model)) as Hin'
      by (apply filter_In; split; [by apply list_elem_of_In|done]).
    destruct (List.filter persistable model); [done|]. simpl. lia. }
  unfold batchCreateCallback. rewrite Herr. cbn [negb NowFunc].
  change (IndirectValue (tick scope)) with (IndirectValue scope). rewrite Hv.
  destruct l as [|e0 es]; [done|].
  rewrite (proj2 (Z.leb_gt _ _)) by (simpl; lia).
  change (FiledsWithIndexForBatch (tick scope) 0)
    with (FiledsWithIndexForBatch (tick scope) (Z.of_nat 0)).
  destruct i as [|i].
  - injection Hl as ->.
    rewrite (FiledsWithIndexForBatch_detached (tick scope) _ 0 e Hv eq_refl Hr).
    cbn [mbind option_bind].
    change (ModelStructFields (tick scope)) with model.
    rewrite (batchCreate_columns_describe detached (λ _, eq_refl)).
    fold (columnNames model). fold (columnList model). cbn [app].
    rewrite Hcols.
    pose proof (batchCreate_rows_panic (tick scope) (e :: es) (SQLVars (tick scope))
                  0 e Hwf eq_refl Hr Hconf Hex) as Hpanic.
    cbv zeta in Hpanic.
    change (ModelStructFields (tick scope)) with model in Hpanic.
    rewrite (withRows_id (tick scope) _ Hv) in Hpanic. by rewrite Hpanic.
  - cbn [take] in Hconf. inversion Hconf as [|? ? He0 Hrest]; subst.
    rewrite (FiledsWithIndexForBatch_record (tick scope) _ 0 e0 Hv eq_refl Hwf He0).
    cbn [mbind option_bind].
    change (ModelStructFields (tick scope)) with model.
    rewrite (batchCreate_columns_describe (describe _ _) (λ _, eq_refl)).
    fold (columnNames model). fold (columnList model). cbn [app].
    rewrite Hcols.
    change (setIndirectValue (VSlice (<[0%nat:=?x]> (e0 :: es))) (tick scope))
      with (withRows (x :: es) (SQLVars scope) (tick scope)).
    change (length (e0 :: es)) with (length (settle model e0 :: es)).
    assert (Forall (λ e, conforms model e = true)
                   (take (S i) (settle model e0 :: es))) as Hconf'.
    { cbn [take]. constructor; [by apply settle_conforms|done]. }
    pose proof (batchCreate_rows_panic (tick scope) (settle model e0 :: es)
                  (SQLVars scope) (S i) e Hwf Hl Hr Hconf' Hex) as Hpanic.
    cbv zeta in Hpanic.
    change (ModelStructFields (tick scope)) with model in Hpanic.
    by rewrite Hpanic.
Qed.

End PanicProperties.

(** ** The callbacks on the sample requests *)

Import Sample.

(** C1: on a record that embeds another, whose ignored field [Note] bears
    the logical name of the record's own column [Note], the statement has
    two columns and tuples of three placeholders. *)
Theorem shadowed_name_breaks_arity :
  HasError shadow = false
  ∧ wfModel shadowModel = true
  ∧ forallb (conforms shadowModel) [shadowed 1 "hello"; shadowed 2 "world"] = true
  ∧ columnList shadowModel = ["`ID`"; "`Note`"]
  ∧ SQL <$> batchCreateCallback shadow
    = Some "INSERT INTO `users` (`ID`,`Note`) VALUES (?,?,?),(?,?,?)".
Proof. repeat split; vm_compute; reflexivity. Qed.

(** C2: on the same request every row binds three values -- the first is
    the content of the ignored field -- for the two columns derived from the
    first element. *)
Theorem shadowed_name_binds_extra_value :
  List.filter persistable shadowModel
  = [ schemaField "ID" ["ID"] true true false None;
      schemaField "Note" ["Note"] false true false None ]
  ∧ namesConsistent shadowModel = false
  ∧ SQLVars <$> batchCreateCallback shadow
    = Some [VString "draft"; VInt 1; VString "hello";
            VString "draft"; VInt 2; VString "world"].
Proof. repeat split; vm_compute; reflexivity. Qed.

(** The theorems above at the sample requests. *)

Lemma FiledsWithIndexForBatch_nil_witness :
  FiledsWithIndexForBatch users 2 = Some ([], users)
  ∧ FiledsWithIndexForBatch notASlice 0 = Some ([], notASlice).
Proof.
  split.
  - apply (FiledsWithIndexForBatch_nil users 2). right.
    exists [alice; bob]. split; [reflexivity|simpl; lia].
  - apply (FiledsWithIndexForBatch_nil notASlice 0). left. discriminate.
Defined.

Lemma nil_target_panics_witness :
  HasError nilTarget = false
  ∧ KindOf (IndirectValue nilTarget) ≠ Slice
  ∧ beforeBatchCreateCallback nilTarget = None
  ∧ updateTimeStampForBatchCreateCallback nilTarget = None
  ∧ batchCreateCallback nilTarget = None.
Proof.
  split; [reflexivity|].
  exact (nil_target_panics nilTarget eq_refl eq_refl).
Defined.

Lemma callbacks_skip_on_error_witness :
  HasError failed = true ∧ runBatchCreate failed = Some failed.
Proof.
  split; [reflexivity|].
  destruct (callbacks_skip_on_error failed eq_refl) as (Hfirst & _ & _ & Hrun & _).
  exact (Hrun failed Hfirst).
Defined.

Lemma batchCreate_preconditions_witness :
  (∃ scope', batchCreateCallback noUsers = Some scope'
             ∧ Error scope' = Some (Errorf batchCreate_emptySlice
                                           (IndirectValue scope'))
             ∧ nothingSent noUsers scope')
  ∧ (∃ scope', batchCreateCallback bare = Some scope'
               ∧ Error scope' = Some (Errorf batchCreate_emptyColumns
                                             (IndirectValue scope'))
               ∧ nothingSent bare scope').
Proof.
  split.
  - destruct (batchCreate_preconditions noUsers [] eq_refl eq_refl
                (or_introl eq_refl) eq_refl)
      as (scope' & Hrun & Herr & Hsent & _).
    exists scope'. split; [exact Hrun|]. split; [exact Herr|exact Hsent].
  - destruct (batchCreate_preconditions bare [alice] eq_refl eq_refl
                (or_intror eq_refl) eq_refl)
      as (scope' & Hrun & Herr & Hsent & _).
    exists scope'. split; [exact Hrun|]. split; [exact Herr|exact Hsent].
Defined.

Lemma sample_users_conform : Forall (λ e, conforms userModel e = true) [alice; bob].
Proof. repeat constructor. Defined.

Lemma insert_option_appended_witness :
  ∃ scope',
    batchCreateCallback usersOnConflict = Some scope'
    ∧ SQL scope'
      = valuesClause (columnList userModel)
                     (rowPlaceholders (length (rowFields userModel)) 2 0)
        +:+ " ON CONFLICT DO NOTHING".
Proof.
  destruct (insert_option_appended usersOnConflict [alice; bob]
              eq_refl eq_refl ltac:(discriminate) eq_refl sample_users_conform
              ltac:(discriminate))
    as (scope' & Hrun & _ & Htext & _).
  exists scope'. split; [exact Hrun|].
  apply (Htext "ON CONFLICT DO NOTHING"); [reflexivity|discriminate].
Defined.

Lemma default_bound_and_written_back_witness :
  ∃ scope',
    batchCreateCallback users = Some scope'
    ∧ SQLVars scope' !! 1%nat = Some (VString "anon")
    ∧ FieldInterface nameOfAlice scope' = Some (VString "anon").
Proof.
  eapply (default_bound_and_written_back users [alice; bob] 0 1 fieldsOfAlice _
            nameOfAlice eq_refl eq_refl eq_refl sample_users_conform);
    vm_compute; reflexivity.
Defined.

Lemma blank_primary_key_bound_nil_witness :
  ∃ scope', batchCreateCallback users = Some scope'
            ∧ SQLVars scope' !! 0%nat = Some VNil.
Proof.
  eapply (blank_primary_key_bound_nil users [alice; bob] 0 0 fieldsOfAlice _
            idOfAlice eq_refl eq_refl eq_refl sample_users_conform);
    vm_compute; reflexivity.
Defined.

Lemma sample_users_extractable :
  Forall (λ e, isRecord e = false ∨ conforms userModel e = true) [alice; bob].
Proof. repeat constructor; by right. Defined.

Lemma sample_created_at :
  schemaField "CreatedAt" ["CreatedAt"] false true false None ∈ userModel.
Proof. do 4 apply list_elem_of_further. apply list_elem_of_here. Defined.

Lemma sample_team_extractable :
  Forall (λ e, isRecord e = false ∨ conforms userModel e = true) [alice; carol].
Proof. repeat constructor; by right. Defined.

Lemma updateTimeStamp_stamps_blank_fields_witness :
  ∃ (l' : list gval) alice' carol',
    updateTimeStampForBatchCreateCallback team
    = Some (setIndirectValue (VSlice l') (tick team))
    ∧ l' !! 0%nat = Some alice' ∧ l' !! 1%nat = Some carol'
    ∧ getPath ["CreatedAt"] alice = Some (VTime 0)
    ∧ getPath ["CreatedAt"] alice' = Some (VTime 1700000000)
    ∧ getPath ["CreatedAt"] carol = Some (VTime 5)
    ∧ getPath ["CreatedAt"] carol' = Some (VTime 5).
Proof.
  destruct (updateTimeStamp_stamps_blank_fields team [alice; carol]
              eq_refl eq_refl eq_refl sample_team_extractable)
    as (l' & Hrun & _ & Hfields & _).
  destruct (Hfields 0%nat alice _ eq_refl eq_refl sample_created_at)
    as (alice' & v0 & Hl0 & _ & Hv0 & Hget0).
  destruct (Hfields 1%nat carol _ eq_refl eq_refl sample_created_at)
    as (carol' & v1 & Hl1 & _ & Hv1 & Hget1).
  rewrite <- (Hv0 (VTime 0) eq_refl) in Hget0.
  rewrite <- (Hv1 (VTime 5) eq_refl) in Hget1.
  exists l', alice', carol'.
  exact (conj Hrun (conj Hl0 (conj Hl1
           (conj eq_refl (conj Hget0 (conj eq_refl Hget1)))))).
Defined.

(** The further properties at the sample requests. *)

Lemma extractor_describes_record_witness :
  ∃ fields scope',
    FiledsWithIndexForBatch users 0 = Some (fields, scope')
    ∧ FStructField <$> fields = userModel.
Proof.
  destruct (extractor_describes_record users [alice; bob] 0 alice
              eq_refl eq_refl eq_refl eq_refl)
    as (fields & scope' & Hrun & Hmodel & _).
  by exists fields, scope'.
Defined.

Lemma extractor_detaches_non_record_witness :
  ∃ fields,
    FiledsWithIndexForBatch usersAndNobody 1 = Some (fields, usersAndNobody)
    ∧ FStructField <$> fields = userModel.
Proof.
  destruct (extractor_detaches_non_record usersAndNobody [alice; nobody] 1 nobody
              eq_refl eq_refl eq_refl)
    as (fields & Hrun & Hmodel & _).
  by exists fields.
Defined.

Lemma sample_age : schemaField "Age" ["Age"] false true false None ∈ userModel.
Proof. do 2 apply list_elem_of_further. apply list_elem_of_here. Defined.

Lemma extractor_only_allocates_witness :
  ∃ fields scope' (l' : list gval) alice',
    FiledsWithIndexForBatch users 0 = Some (fields, scope')
    ∧ scope' = setIndirectValue (VSlice l') users
    ∧ length l' = 2%nat ∧ l' !! 0%nat = Some alice'
    ∧ getPath ["Age"] alice' = Some (VInt 3).
Proof.
  destruct (extractor_only_allocates users [alice; bob] 0 alice
              eq_refl eq_refl eq_refl eq_refl)
    as (fields & scope' & l' & e' & Hrun & Hscope & Hlen & Hl' & _ & Hsame).
  exists fields, scope', l', e'.
  exact (conj Hrun (conj Hscope (conj Hlen (conj Hl'
           (Hsame _ (VInt 3) sample_age eq_refl))))).
Defined.

Lemma extractor_idempotent_witness :
  ∃ fields scope',
    FiledsWithIndexForBatch users 0 = Some (fields, scope')
    ∧ FiledsWithIndexForBatch scope' 0 = Some (fields, scope').
Proof.
  exact (extractor_idempotent users [alice; bob] 0 alice
           eq_refl eq_refl eq_refl (or_intror eq_refl)).
Defined.


Lemma batchCreate_executes_once_witness :
  ∃ scope',
    batchCreateCallback users = Some scope'
    ∧ Executed scope' = [(SQL scope', SQLVars scope')]
    ∧ RowsAffected scope' = 2 ∧ Error scope' = None.
Proof.
  destruct (batchCreate_executes_once users [alice; bob]
              eq_refl eq_refl ltac:(discriminate) eq_refl sample_users_conform
              ltac:(discriminate))
    as (scope' & Hrun & Hlog & Hanswer).
  exists scope'. split; [exact Hrun|]. split; [exact Hlog|exact Hanswer].
Defined.

Lemma sample_fields_of_alice :
  FiledsWithIndexForBatch users 0
  = Some (fieldsOfAlice,
          setIndirectValue (VSlice [settle userModel alice; bob]) users).
Proof. vm_compute. reflexivity. Defined.

Lemma value_bound_as_is_witness :
  ∃ scope' v,
    batchCreateCallback users = Some scope'
    ∧ SQLVars scope' !! 2%nat = Some v
    ∧ FieldInterface ageOfAlice scope' = Some v.
Proof.
  destruct (value_bound_as_is users [alice; bob] 0 2 fieldsOfAlice
              (setIndirectValue
                 (VSlice [settle userModel alice; bob]) users)
              ageOfAlice eq_refl eq_refl eq_refl sample_users_conform
              sample_fields_of_alice eq_refl eq_refl (or_introl eq_refl))
    as (scope' & v & Hrun & _ & Hvar & Hafter).
  by exists scope', v.
Defined.

Lemma only_defaults_written_back_witness :
  ∃ scope',
    batchCreateCallback users = Some scope'
    ∧ FieldInterface idOfAlice scope' = Some (VInt 0).
Proof.
  destruct (only_defaults_written_back users [alice; bob] 0 fieldsOfAlice
              (setIndirectValue
                 (VSlice [settle userModel alice; bob]) users)
              idOfAlice eq_refl eq_refl eq_refl sample_users_conform
              ltac:(discriminate) sample_fields_of_alice
              ltac:(by left) eq_refl)
    as (scope' & l' & Hrun & Hafter & _).
  by exists scope'.
Defined.

Lemma updateTimeStamp_idempotent_witness :
  isBlank (Now (Clock users)) = false
  ∧ ∃ scope',
      updateTimeStampForBatchCreateCallback users = Some scope'
      ∧ updateTimeStampForBatchCreateCallback scope' = Some (tick scope').
Proof.
  split; [reflexivity|].
  exact (updateTimeStamp_idempotent users [alice; bob]
           eq_refl eq_refl eq_refl sample_users_extractable eq_refl).
Defined.

Lemma runBatchCreate_empty_slice_witness :
  runBatchCreate noUsers
  = Some (setError (Some (Errorf batchCreate_emptySlice (VSlice [])))
                   (tick (tick noUsers))).
Proof.
  exact (proj2 (proj2 (runBatchCreate_empty_slice noUsers eq_refl eq_refl))).
Defined.

Lemma stamped_time_is_bound_witness :
  ∃ scope1 scope2,
    updateTimeStampForBatchCreateCallback users = Some scope1
    ∧ batchCreateCallback scope1 = Some scope2
    ∧ SQLVars scope2 !! 4%nat = Some (VTime 1700000000).
Proof.
  exact (stamped_time_is_bound users [alice; bob] 0 4 fieldsOfAlice
           (setIndirectValue (VSlice [settle userModel alice; bob]) users)
           createdAtOfAlice eq_refl eq_refl eq_refl sample_users_conform
           eq_refl sample_fields_of_alice eq_refl eq_refl eq_refl
           (or_introl eq_refl)).
Defined.

Lemma batchCreate_panics_on_non_record_witness :
  batchCreateCallback usersAndNobody = None.
Proof.
  apply (batchCreate_panics_on_non_record usersAndNobody [alice; nobody] 1 nobody
           eq_refl eq_refl eq_refl eq_refl eq_refl).
  - repeat constructor.
  - do 2 apply Exists_cons_tl. apply Exists_cons_hd. by repeat split.
Defined.


Lemma sample_users_and_nobody_extractable :
  Forall (λ e, isRecord e = false ∨ conforms userModel e = true) [alice; nobody].
Proof.
  constructor; [by right|]. constructor; [by left|]. constructor.
Defined.

Lemma updateTimeStamp_skips_non_records_witness :
  ∃ scope' (l' : list gval),
    updateTimeStampForBatchCreateCallback usersAndNobody = Some scope'
    ∧ IndirectValue scope' = VSlice l' ∧ l' !! 1%nat = Some nobody.
Proof.
  destruct (updateTimeStamp_skips_non_records usersAndNobody [alice; nobody]
              eq_refl eq_refl eq_refl sample_users_and_nobody_extractable)
    as (scope' & l' & Hrun & Hvalue & _ & Hskip).
  exists scope', l'. split; [exact Hrun|]. split; [exact Hvalue|].
  exact (Hskip 1%nat nobody eq_refl eq_refl).
Defined.

Lemma nonSlice_input_shape_error_witness :
  beforeBatchCreateCallback notASlice
  = Some (inputShapeError "beforeBatchCreateCallback" notASlice)
  ∧ updateTimeStampForBatchCreateCallback notASlice
    = Some (inputShapeError "updateTimeStampForBatchCreateCallback" (tick notASlice))
  ∧ batchCreateCallback notASlice
    = Some (inputShapeError "batchCreateCallback" (tick notASlice)).
Proof.
  apply (nonSlice_input_shape_error notASlice);
    [reflexivity|discriminate|discriminate].
Defined.
